(** * Sales-Bot: the campaign engine (Scheduler.py) and the response
    endpoint (app.py), embedded as state-passing programs over an explicit
    world (files, timer queue, clock, mail outbox, console).

    A Python function becomes a computation in a state and exception
    monad; a [dict] becomes a finite map, and a record reached through
    two lists (the contacts and the pending contacts of a campaign run)
    is addressed by its position in the list that owns it.  The libraries
    that the programs call are parameters, gathered in one class, with a
    small concrete instance to run the programs on examples. *)

From stdpp Require Import base option list gmap strings pretty.
From Stdlib Require Import ZArith Lia Ascii DecimalPos DecimalZ PrimFloat FloatOps Uint63 SpecFloat.

Open Scope string_scope.
Open Scope list_scope.

(** ** Python values held by the two stores

    The stores are JSON arrays of flat objects (spec, sections 3 and 6): a
    field is an integer, a string or null.  A record is a Python [dict], so
    a finite map with extensional equality; a collection is a Python [list]. *)

Inductive value :=
| VNone
| VInt (z : Z)
| VStr (s : string).

Global Instance value_eq_dec : EqDecision value.
Proof. solve_decision. Defined.

Abbreviation dict := (gmap string value).

(** [str(v)], as an f-string renders a field. *)
Definition str (v : value) : string :=
  match v with
  | VNone => "None"
  | VInt z => pretty z
  | VStr s => s
  end.

(** [d.get(k, dflt)] *)
Definition dict_get (d : dict) (k : string) (dflt : value) : value :=
  default dflt (d !! k).

(** The exceptions (all subclasses of [Exception]) that the modelled code
    can meet. *)
Inductive exn :=
| FileNotFoundError (filename : string)
| JSONDecodeError
| KeyError (key : string)
| TypeError
| ZeroDivisionError
| TemplateError (msg : string)
| SMTPException (msg : string)
| ConflictingIdError (job : string).

Global Instance exn_eq_dec : EqDecision exn.
Proof. solve_decision. Defined.

(** [d[k]] *)
Definition getitem (d : dict) (k : string) : exn + value :=
  match d !! k with
  | Some v => inr v
  | None => inl (KeyError k)
  end.

(** ** The world *)

(** The variables handed to [template.render]. *)
Record RenderVars := {
  contact_name : value;
  contact_email : value;
  contact_company : value;
  company_name : string;
  product_name : string;
  sender_name : string;
  interested_link : string;
  not_interested_link : string;
  reminder_number : option Z  (* [is_reminder=True, reminder_number=n] when [Some n] *)
}.

(** The MIME envelope handed to [server.send_message]. *)
Record Message := {
  msg_subject : string;
  msg_from : string;
  msg_to : value;
  msg_html : string
}.

Global Instance Message_eq_dec : EqDecision Message.
Proof. solve_decision. Defined.

(** A one-shot ['date'] job of the APScheduler: it calls
    [send_reminder_email] on [job_args] at [run_date]. *)
Record Job := {
  job_id : string;
  run_date : Z;
  job_args : value * Z
}.

Global Instance Job_eq_dec : EqDecision Job.
Proof. solve_decision. Defined.

(** Time is in seconds; the clock is read by [datetime.now()] and moved
    by [time.sleep] and by the timer (the time that the other steps take
    is not modelled).  [writes] logs the name of every file opened for
    writing, oldest first; [reminder_scheduler] is the module global of
    Scheduler.py, [None] while it is not set, and otherwise the jobs of
    the scheduler object; [scheduled] logs every job that [add_job] has
    accepted, oldest first, whatever becomes of the job afterwards. *)
Record World := {
  fs : gmap string string;
  writes : list string;
  reminder_scheduler : option (list Job);
  scheduled : list Job;
  now : Z;
  outbox : list Message;
  stdout : list string
}.

Global Instance World_eq_dec : EqDecision World.
Proof. solve_decision. Defined.

Definition set_fs (f : gmap string string → gmap string string) (w : World) : World :=
  {| fs := f (fs w); writes := writes w; reminder_scheduler := reminder_scheduler w;
     scheduled := scheduled w; now := now w; outbox := outbox w; stdout := stdout w |}.
Definition set_writes (f : list string → list string) (w : World) : World :=
  {| fs := fs w; writes := f (writes w); reminder_scheduler := reminder_scheduler w;
     scheduled := scheduled w; now := now w; outbox := outbox w; stdout := stdout w |}.
Definition set_reminder_scheduler (f : option (list Job) → option (list Job)) (w : World) : World :=
  {| fs := fs w; writes := writes w; reminder_scheduler := f (reminder_scheduler w);
     scheduled := scheduled w; now := now w; outbox := outbox w; stdout := stdout w |}.
Definition set_scheduled (f : list Job → list Job) (w : World) : World :=
  {| fs := fs w; writes := writes w; reminder_scheduler := reminder_scheduler w;
     scheduled := f (scheduled w); now := now w; outbox := outbox w; stdout := stdout w |}.
Definition set_now (f : Z → Z) (w : World) : World :=
  {| fs := fs w; writes := writes w; reminder_scheduler := reminder_scheduler w;
     scheduled := scheduled w; now := f (now w); outbox := outbox w; stdout := stdout w |}.
Definition set_outbox (f : list Message → list Message) (w : World) : World :=
  {| fs := fs w; writes := writes w; reminder_scheduler := reminder_scheduler w;
     scheduled := scheduled w; now := now w; outbox := f (outbox w); stdout := stdout w |}.
Definition set_stdout (f : list string → list string) (w : World) : World :=
  {| fs := fs w; writes := writes w; reminder_scheduler := reminder_scheduler w;
     scheduled := scheduled w; now := now w; outbox := outbox w; stdout := f (stdout w) |}.

(** ** A state and exception monad

    A computation ends with a value or with a raised exception; either way
    it leaves the world it reached. *)

Inductive result (A : Type) :=
| Ok (a : A) (w : World)
| Raise (e : exn) (w : World).
Arguments Ok {A} a w.
Arguments Raise {A} e w.

Global Instance result_eq_dec `{EqDecision A} : EqDecision (result A).
Proof. solve_decision. Defined.

Definition M (A : Type) : Type := World → result A.

Global Instance M_ret : MRet M := λ A a w, Ok a w.
Global Instance M_bind : MBind M := λ A B f m w,
  match m w with
  | Ok a w' => f a w'
  | Raise e w' => Raise e w'
  end.

Definition raise {A} (e : exn) : M A := λ w, Raise e w.

Definition lift {A} (r : exn + A) : M A :=
  match r with
  | inl e => raise e
  | inr a => mret a
  end.

(** [try: body except <caught>: handler]; an exception that [caught]
    rejects propagates. *)
Definition try_except {A} (body : M A) (caught : exn → bool) (handler : exn → M A) : M A :=
  λ w, match body w with
       | Ok a w' => Ok a w'
       | Raise e w' => if caught e then handler e w' else Raise e w'
       end.

Definition Exception (e : exn) : bool := true.

Definition is_FileNotFoundError (e : exn) : bool :=
  match e with FileNotFoundError _ => true | _ => false end.

Definition is_JSONDecodeError (e : exn) : bool :=
  match e with JSONDecodeError => true | _ => false end.

(** The world a computation ends in. *)
Definition world_of {A} (r : result A) : World :=
  match r with Ok _ w => w | Raise _ w => w end.

(** ** Primitive effects *)

(** [open(filename, 'r').read()] *)
Definition read_file (filename : string) : M string :=
  λ w, match fs w !! filename with
       | Some s => Ok s w
       | None => Raise (FileNotFoundError filename) w
       end.

(** [open(filename, 'w')] followed by one write of the whole text. *)
Definition write_file (filename : string) (text : string) : M unit :=
  λ w, Ok tt (set_writes (λ l, l ++ [filename]) (set_fs <[filename := text]> w)).

Definition print (line : string) : M unit :=
  λ w, Ok tt (set_stdout (λ l, l ++ [line]) w).

(** [datetime.now()] *)
Definition datetime_now : M Z := λ w, Ok (now w) w.

(** [time.sleep(secs)] *)
Definition sleep (secs : Z) : M unit := λ w, Ok tt (set_now (λ t, t + secs)%Z w).

(** ** External collaborators and configuration

    The libraries the program calls (json, datetime, jinja2, smtplib) and
    the values it reads from the environment.  [json_loads] is [None] where
    the parser raises [JSONDecodeError] (a document that is not an array of
    flat objects is outside the model); [json_dumps a] is
    [json.dump(data, f, indent=2, ensure_ascii=a)]; [smtp_submit t m] is
    [None] when the session (connect, starttls, login, send_message) that
    starts at time [t] accepts [m], and the exception it raises otherwise. *)
Class Collaborators := {
  COMPANY_NAME : string;
  PRODUCT_NAME : string;
  SENDER_NAME : string;
  SENDER_EMAIL : string;
  BASE_URL : string;
  CALENDLY_LINK : string;
  json_loads : string → option (list dict);
  json_dumps : bool → list dict → string;
  isoformat : Z → string;
  strftime : Z → string → string;
  Template : string → option exn;
  render : string → RenderVars → exn + string;
  smtp_submit : Z → Message → option exn;
  exn_str : exn → string
}.

Definition CONTACTS_FILE : string := "contacts.json".
Definition TRACKING_FILE : string := "email_tracking.json".
Definition TEMPLATE_FILE : string := "email_template.html".

Definition newline : string := String (Ascii.ascii_of_nat 10) "".

(** A tracking event, as both programs build it. *)
Definition tracking_entry (contact_id name email : value) (action timestamp : string) : dict :=
  <["contact_id" := contact_id]>
  (<["contact_name" := name]>
  (<["contact_email" := email]>
  (<["action" := VStr action]>
  (<["timestamp" := VStr timestamp]> ∅)))).

(** Raise the exception a library call reports, if any. *)
Definition raise_if {A} (o : option exn) (a : A) : M A :=
  match o with
  | Some e => raise e
  | None => mret a
  end.

(** [next((c for c in contacts if c['id'] == contact_id), None)]: the first
    record whose id equals [contact_id], with its position in the list (the
    record is an alias of that element).  A record without an ['id'] met
    before a match raises [KeyError]. *)
Fixpoint find_by_id (contacts : list dict) (contact_id : value) (i : nat)
  : exn + option (nat * dict) :=
  match contacts with
  | [] => inr None
  | c :: rest =>
      match c !! "id" with
      | None => inl (KeyError "id")
      | Some v =>
          if decide (v = contact_id) then inr (Some (i, c))
          else find_by_id rest contact_id (S i)
      end
  end.

(** * Scheduler.py *)
Module Scheduler.

Definition DEFAULT_REMINDER_INTERVAL_MINUTES : Z := 1.
Definition MAX_REMINDERS : Z := 3.

(** [x >= MAX_REMINDERS] and [x + 1] need an integer operand. *)
Definition int_operand (v : value) : exn + Z :=
  match v with
  | VInt n => inr n
  | _ => inl TypeError
  end.

(** [contact.get('status') == 'pending'] *)
Definition is_pending (c : dict) : bool :=
  bool_decide (dict_get c "status" VNone = VStr "pending").

Section with_collaborators.
Context {env : Collaborators}.

Definition load_json (filename : string) : M (list dict) :=
  try_except
    (text ← read_file filename;
     match json_loads text with
     | Some data => mret data
     | None => raise JSONDecodeError
     end)
    is_FileNotFoundError
    (λ _, mret []).

Definition save_json (filename : string) (data : list dict) : M unit :=
  write_file filename (json_dumps false data).

Definition load_email_template : M string := read_file TEMPLATE_FILE.

(** [with smtplib.SMTP(...) as server: starttls; login; send_message] *)
Definition smtp_send (message : Message) : M unit :=
  λ w, match smtp_submit (now w) message with
       | None => Ok tt (set_outbox (λ l, l ++ [message]) w)
       | Some e => Raise e w
       end.

(** ['reminder_scheduler' in globals() and reminder_scheduler]: the
    scheduler object when the global is set (a scheduler object is truthy). *)
Definition get_reminder_scheduler : M (option (list Job)) :=
  λ w, Ok (reminder_scheduler w) w.

(** [reminder_scheduler.add_job(send_reminder_email, 'date', ...)] on the
    running scheduler: a job whose id the scheduler already holds is
    refused with [ConflictingIdError]; otherwise the job joins the queue.
    (The callers test the global first: the call is not reached while it
    is not set.) *)
Definition add_job (j : Job) : M unit :=
  λ w, match reminder_scheduler w with
       | Some jobs =>
           if bool_decide (job_id j ∈ job_id <$> jobs)
           then Raise (ConflictingIdError (job_id j)) w
           else Ok tt (set_scheduled (λ l, l ++ [j])
                         (set_reminder_scheduler (λ _, Some (jobs ++ [j])) w))
       | None => Ok tt w
       end.

Definition render_vars (name email company : value) (id : value) (reminder : option Z)
  : RenderVars :=
  {| contact_name := name;
     contact_email := email;
     contact_company := company;
     company_name := COMPANY_NAME;
     product_name := PRODUCT_NAME;
     sender_name := SENDER_NAME;
     interested_link := BASE_URL +:+ "/interested/" +:+ str id;
     not_interested_link := BASE_URL +:+ "/not-interested/" +:+ str id;
     reminder_number := reminder |}.

(** The first half of the [try] block of [send_email] and of
    [send_reminder_email]: template, tracking links, rendering, envelope. *)
Definition compose (contact : dict) (subject : string) (reminder : option Z)
  : M (value * value * value * Message) :=
  template_content ← load_email_template;
  raise_if (Template template_content) tt;;
  id ← lift (getitem contact "id");
  name ← lift (getitem contact "name");
  email ← lift (getitem contact "email");
  let company := dict_get contact "company" (VStr "your organization") in
  html_content ← lift (render template_content (render_vars name email company id reminder));
  mret (id, name, email,
        {| msg_subject := subject;
           msg_from := SENDER_NAME +:+ " <" +:+ SENDER_EMAIL +:+ ">";
           msg_to := email;
           msg_html := html_content |}).

Definition initial_subject : string := "Let's Schedule a Demo - " +:+ COMPANY_NAME.
Definition reminder_subject : string :=
  "🔔 Reminder: Let's Schedule a Demo - " +:+ COMPANY_NAME.

Definition send_email (contact : dict) : M bool :=
  try_except
    ('(id, name, email, message) ← compose contact initial_subject None;
     smtp_send message;;
     (* Track email sent *)
     tracking ← load_json TRACKING_FILE;
     timestamp ← datetime_now;
     save_json TRACKING_FILE
       (tracking ++ [tracking_entry id name email "email_sent" (isoformat timestamp)]);;
     print ("✅ Email sent successfully to " +:+ str name +:+ " (" +:+ str email +:+ ")");;
     mret true)
    Exception
    (λ e,
     name ← lift (getitem contact "name");
     print ("❌ Failed to send email to " +:+ str name +:+ ": " +:+ exn_str e);;
     mret false).

Definition send_reminder_email (contact_id : value) (reminder_interval_minutes : option Z)
  : M unit :=
  let reminder_interval_minutes :=
    default DEFAULT_REMINDER_INTERVAL_MINUTES reminder_interval_minutes in
  contacts ← load_json CONTACTS_FILE;
  found ← lift (find_by_id contacts contact_id 0);
  match found with
  | None => print ("⚠️ Contact " +:+ str contact_id +:+ " not found or not pending")
  | Some (i, contact) =>
    if bool_decide (contact = ∅) || negb (is_pending contact) then
      print ("⚠️ Contact " +:+ str contact_id +:+ " not found or not pending")
    else
      (* Check if we've already sent max reminders *)
      reminder_count ← lift (int_operand (dict_get contact "reminder_count" (VInt 0)));
      if bool_decide (reminder_count >= MAX_REMINDERS)%Z then
        (* Auto-mark as not_interested after max reminders *)
        updated_at ← datetime_now;
        let contact := <["updated_at" := VStr (isoformat updated_at)]>
                       (<["status" := VStr "not_interested"]> contact) in
        save_json CONTACTS_FILE (<[i := contact]> contacts);;
        name ← lift (getitem contact "name");
        print ("🚫 Max reminders (" +:+ pretty MAX_REMINDERS +:+ ") reached for "
               +:+ str name +:+ " - Marked as not_interested")
      else
        try_except
          ('(id, name, email, message) ← compose contact reminder_subject
                                           (Some (reminder_count + 1)%Z);
           smtp_send message;;
           (* Update reminder count and timestamp *)
           let new_reminder_count := (reminder_count + 1)%Z in
           current_time ← datetime_now;
           let contact := <["updated_at" := VStr (isoformat current_time)]>
                          (<["last_reminder_sent" := VStr (isoformat current_time)]>
                          (<["reminder_count" := VInt new_reminder_count]> contact)) in
           (* Track reminder sent *)
           tracking ← load_json TRACKING_FILE;
           save_json TRACKING_FILE
             (tracking ++ [tracking_entry id name email
                             ("reminder_" +:+ pretty new_reminder_count +:+ "_sent")
                             (isoformat current_time)]);;
           save_json CONTACTS_FILE (<[i := contact]> contacts);;
           print ("🔔 Reminder " +:+ pretty new_reminder_count +:+ " sent to "
                  +:+ str name +:+ " (" +:+ str email +:+ ")");;
           (* Schedule next reminder if under limit *)
           if bool_decide (new_reminder_count < MAX_REMINDERS)%Z then
             (* Get scheduler from global scope *)
             scheduler ← get_reminder_scheduler;
             match scheduler with
             | Some _ =>
                 let next_reminder_time :=
                   (current_time + 60 * reminder_interval_minutes)%Z in
                 add_job {| job_id := "reminder_" +:+ str id +:+ "_"
                                      +:+ pretty (new_reminder_count + 1)%Z;
                            run_date := next_reminder_time;
                            job_args := (id, reminder_interval_minutes) |};;
                 print ("⏰ Next reminder for " +:+ str name +:+ " scheduled at "
                        +:+ strftime next_reminder_time "%H:%M:%S" +:+ " (in "
                        +:+ pretty reminder_interval_minutes +:+ " min)")
             | None => mret tt
             end
           else mret tt)
          Exception
          (λ e,
           name ← lift (getitem contact "name");
           print ("❌ Failed to send reminder to " +:+ str name +:+ ": " +:+ exn_str e))
  end.

(** The positions of [contacts], from [i] on, whose record is pending:
    [pending_contacts = [c for c in contacts if c.get('status') == 'pending']]
    holds references to these elements, not copies. *)
Fixpoint pending_positions (contacts : list dict) (i : nat) : list nat :=
  match contacts with
  | [] => []
  | c :: rest =>
      if is_pending c then i :: pending_positions rest (S i)
      else pending_positions rest (S i)
  end.

(** The locals of the campaign loop: the objects of [contacts] (a write
    through a reference of [pending_contacts] lands here) and the two
    counters. *)
Record CampaignLocals := {
  contacts_of : list dict;
  success_count : nat;
  failed_count : nat
}.

Global Instance CampaignLocals_eq_dec : EqDecision CampaignLocals.
Proof. solve_decision. Defined.

(** What the loop writes into a record after a successful send. *)
Definition mark_sent (contact : dict) (current_time : Z) : dict :=
  (* Update contact with initial email info *)
  let contact := <["updated_at" := VStr (isoformat current_time)]>
                 (<["sent_at" := VStr (isoformat current_time)]> contact) in
  (* Initialize reminder fields if not present *)
  let contact := match contact !! "reminder_count" with
                 | None => <["reminder_count" := VInt 0]> contact
                 | Some _ => contact
                 end in
  match contact !! "last_reminder_sent" with
  | None => <["last_reminder_sent" := VNone]> contact
  | Some _ => contact
  end.

(** Schedule first reminder exactly N minutes from now. *)
Definition schedule_first_reminder (contact : dict) (current_time : Z)
    (reminder_interval_minutes : Z) : M unit :=
  scheduler ← get_reminder_scheduler;
  match scheduler with
  | Some _ =>
      let first_reminder_time := (current_time + 60 * reminder_interval_minutes)%Z in
      id ← lift (getitem contact "id");
      add_job {| job_id := "reminder_" +:+ str id +:+ "_1";
                 run_date := first_reminder_time;
                 job_args := (id, reminder_interval_minutes) |};;
      name ← lift (getitem contact "name");
      print ("⏰ First reminder for " +:+ str name +:+ " scheduled at "
             +:+ strftime first_reminder_time "%H:%M:%S" +:+ " (in "
             +:+ pretty reminder_interval_minutes +:+ " min)")
  | None => mret tt
  end.

(** One iteration of [for contact in pending_contacts], [i] being the
    position that [contact] aliases. *)
Definition campaign_iteration (reminder_interval_minutes : Z) (i : nat)
    (st : CampaignLocals) : M CampaignLocals :=
  match contacts_of st !! i with
  | None => mret st
  | Some contact =>
      sent ← send_email contact;
      st' ← (if sent : bool then
               current_time ← datetime_now;
               let contact := mark_sent contact current_time in
               schedule_first_reminder contact current_time reminder_interval_minutes;;
               mret {| contacts_of := <[i := contact]> (contacts_of st);
                       success_count := S (success_count st);
                       failed_count := failed_count st |}
             else
               mret {| contacts_of := contacts_of st;
                       success_count := success_count st;
                       failed_count := S (failed_count st) |});
      (* Small delay to avoid rate limiting *)
      sleep 1;;
      mret st'
  end.

Fixpoint campaign_loop (reminder_interval_minutes : Z) (pending : list nat)
    (st : CampaignLocals) : M CampaignLocals :=
  match pending with
  | [] => mret st
  | i :: rest =>
      st' ← campaign_iteration reminder_interval_minutes i st;
      campaign_loop reminder_interval_minutes rest st'
  end.

(** The elements that a list of references denotes. *)
Definition deref (objects : list dict) (refs : list nat) : list dict :=
  omap (λ i, objects !! i) refs.

(** Returns [None] when nothing is pending, and the list
    [pending_contacts] otherwise; the counts go to the console. *)
Definition send_emails_to_all (reminder_interval_minutes : option Z)
  : M (option (list dict)) :=
  let reminder_interval_minutes :=
    default DEFAULT_REMINDER_INTERVAL_MINUTES reminder_interval_minutes in
  contacts ← load_json CONTACTS_FILE;
  let pending_contacts := pending_positions contacts 0 in
  match pending_contacts with
  | [] =>
      print "No pending contacts to send emails to.";;
      mret None
  | _ :: _ =>
      print (newline +:+ "📧 Starting email campaign to "
             +:+ pretty (length pending_contacts) +:+ " contacts...");;
      started ← datetime_now;
      print ("⏰ Time: " +:+ strftime started "%Y-%m-%d %H:%M:%S");;
      print ("🔔 Reminder interval: " +:+ pretty reminder_interval_minutes
             +:+ " minutes" +:+ newline);;
      st ← campaign_loop reminder_interval_minutes pending_contacts
             {| contacts_of := contacts; success_count := 0; failed_count := 0 |};
      (* Save updated contacts *)
      save_json CONTACTS_FILE (contacts_of st);;
      print (newline +:+ "📊 Campaign Summary:");;
      print ("   ✅ Successfully sent: " +:+ pretty (success_count st));;
      print ("   ❌ Failed: " +:+ pretty (failed_count st));;
      print ("   📈 Total: " +:+ pretty (length pending_contacts) +:+ newline);;
      mret (Some (deref (contacts_of st) pending_contacts))
  end.

(** [reminder_scheduler = BackgroundScheduler(); reminder_scheduler.start()] *)
Definition start_scheduler : M unit :=
  λ w, Ok tt (set_reminder_scheduler (λ _, Some []) w).

Definition send_now (reminder_interval_minutes : option Z) : M unit :=
  let reminder_interval_minutes :=
    default DEFAULT_REMINDER_INTERVAL_MINUTES reminder_interval_minutes in
  print ("🚀 Sending emails immediately..." +:+ newline);;
  start_scheduler;;
  send_emails_to_all (Some reminder_interval_minutes);;
  mret tt.

(** ** The reminder timer (APScheduler, spec section 4.2)

    A due job is discarded and its callback is called once with the job's
    arguments, no earlier than its fire time; an exception that escapes the
    callback is logged by the timer's executor and goes no further. *)
Fixpoint discard (j : Job) (jobs : list Job) : list Job :=
  match jobs with
  | [] => []
  | j' :: rest => if decide (j' = j) then rest else j' :: discard j rest
  end.

Definition fire (j : Job) : M unit :=
  λ w,
    let w1 := set_now (Z.max (run_date j))
                (set_reminder_scheduler (fmap (discard j)) w) in
    Ok tt (world_of (send_reminder_email (job_args j).1 (Some (job_args j).2) w1)).

(** Run the timer until no job is left, earliest job first, for at most
    [fuel] firings. *)
Fixpoint earliest (j : Job) (jobs : list Job) : Job :=
  match jobs with
  | [] => j
  | j' :: rest =>
      if bool_decide (run_date j' < run_date j)%Z then earliest j' rest
      else earliest j rest
  end.

Fixpoint run_timer (fuel : nat) : M unit :=
  match fuel with
  | O => mret tt
  | S fuel' =>
      λ w, match reminder_scheduler w with
           | Some (j :: jobs) => (fire (earliest j jobs);; run_timer fuel') w
           | _ => Ok tt w
           end
  end.

End with_collaborators.
End Scheduler.

(** * app.py *)
Module app.

(** ** [str.strip()]

    Text is a sequence of UTF-8 bytes; the characters Python takes for
    white space are the ASCII ones, U+0085, U+00A0, U+1680, U+2000 to
    U+200A, U+2028, U+2029, U+202F, U+205F and U+3000. *)
Definition is_ascii_space (n : N) : bool :=
  ((9 <=? n) && (n <=? 13) || (28 <=? n) && (n <=? 32))%N.

(** The length in bytes of the white-space character that [s] starts
    with, [0] if it starts with none. *)
Definition space_prefix (s : list N) : nat :=
  match s with
  | a :: rest =>
      if is_ascii_space a then 1
      else match a, rest with
           | 194%N, b :: _ => if ((b =? 133) || (b =? 160))%N then 2 else 0
           | 225%N, b :: c :: _ => if ((b =? 154) && (c =? 128))%N then 3 else 0
           | 226%N, b :: c :: _ =>
               if ((b =? 128) && ((128 <=? c) && (c <=? 138) || (c =? 168) || (c =? 169)
                                  || (c =? 175))
                   || (b =? 129) && (c =? 159))%N then 3 else 0
           | 227%N, b :: c :: _ => if ((b =? 128) && (c =? 128))%N then 3 else 0
           | _, _ => 0
           end
  | [] => 0
  end.

Fixpoint lstrip_bytes (fuel : nat) (s : list N) : list N :=
  match fuel with
  | O => s
  | S fuel' =>
      match space_prefix s with
      | O => s
      | n => lstrip_bytes fuel' (drop n s)
      end
  end.

(** The same from the right end: the reversed text starts with the
    reversed bytes of a white-space character. *)
Definition space_suffix (r : list N) : nat :=
  match r with
  | a :: rest =>
      if is_ascii_space a then 1
      else match rest with
           | b :: c :: _ =>
               if Nat.eqb (space_prefix [c; b; a]) 3 then 3
               else if Nat.eqb (space_prefix [b; a]) 2 then 2
               else 0
           | b :: _ => if Nat.eqb (space_prefix [b; a]) 2 then 2 else 0
           | [] => 0
           end
  | [] => 0
  end.

Fixpoint rstrip_rev (fuel : nat) (r : list N) : list N :=
  match fuel with
  | O => r
  | S fuel' =>
      match space_suffix r with
      | O => r
      | n => rstrip_rev fuel' (drop n r)
      end
  end.

Definition bytes_of (s : string) : list N :=
  (λ a, N.of_nat (Ascii.nat_of_ascii a)) <$> String.list_ascii_of_string s.
Definition text_of (l : list N) : string :=
  String.string_of_list_ascii ((λ n, Ascii.ascii_of_nat (N.to_nat n)) <$> l).

Definition strip (s : string) : string :=
  let l := lstrip_bytes (String.length s) (bytes_of s) in
  text_of (rev (rstrip_rev (length l) (rev l))).

(** ** Floating point, as [/stats] uses it

    Python's [float] is IEEE 754 binary64, the kernel's primitive [float]. *)

(** [float(n)] for a count ([0 <= n < 2^53], exact). *)
Definition float_of_count (n : nat) : float :=
  PrimFloat.of_uint63 (Uint63.of_Z (Z.of_nat n)).

(** [a / b] on integers: true division. *)
Definition truediv (a b : nat) : exn + float :=
  if Nat.eqb b 0 then inl ZeroDivisionError
  else inr (float_of_count a / float_of_count b)%float.

(** [m * 2^e * 10] rounded to an integer, ties to even. *)
Definition tenths (m : positive) (e : Z) : Z :=
  let num := (Z.pos m * 10)%Z in
  if (0 <=? e)%Z then (num * 2 ^ e)%Z
  else
    let den := (2 ^ (- e))%Z in
    let q := (num / den)%Z in
    let r := (num mod den)%Z in
    if (den <? 2 * r)%Z then (q + 1)%Z
    else if (2 * r =? den)%Z && Z.odd q then (q + 1)%Z
    else q.

(** [f"{x:.1f}"]: the decimal with one fractional digit nearest to the
    exact value of [x], ties to even. *)
Definition format_1f (x : float) : string :=
  match Prim2SF x with
  | S754_zero s => (if s then "-" else "") +:+ "0.0"
  | S754_infinity s => (if s then "-" else "") +:+ "inf"
  | S754_nan => "nan"
  | S754_finite s m e =>
      let t := tenths m e in
      (if s then "-" else "") +:+ pretty (t / 10)%Z +:+ "." +:+ pretty (t mod 10)%Z
  end.

(** ** Responses *)

Record Stats := {
  total_contacts : nat;
  interested_count : nat;
  not_interested_count : nat;
  pending_count : nat;
  response_rate : string;
  recent_responses : list dict
}.

Inductive Response :=
| RedirectResponse (url : string)
| HTMLResponse (content : string)
| StatsResponse (stats : Stats)
| ContactsResponse (contacts : list dict) (total : nat).

Definition status_code (r : Response) : Z :=
  match r with
  | RedirectResponse _ => 307
  | _ => 200
  end.

(** A double quote, as a string. *)
Definition quote : string := String (Ascii.ascii_of_nat 34) "".

(** The confirmation page of [/not-interested]: the literal of app.py,
    character for character. *)
Definition html_content : string :=
  "
    <!DOCTYPE html>
    <html>
    <head>
        <title>Thank You</title>
        <style>
            body {
                font-family: Arial, sans-serif;
                display: flex;
                justify-content: center;
                align-items: center;
                height: 100vh;
                margin: 0;
                background: linear-gradient(135deg, #667eea 0%, #764ba2 100%);
            }
            .container {
                background: white;
                padding: 50px;
                border-radius: 10px;
                box-shadow: 0 4px 6px rgba(0,0,0,0.1);
                text-align: center;
                max-width: 500px;
            }
            h1 {
                color: #333;
                margin-bottom: 20px;
            }
            p {
                color: #666;
                font-size: 16px;
                line-height: 1.6;
            }
        </style>
    </head>
    <body>
        <div class="
  +:+ quote +:+ "container" +:+ quote +:+
  ">
            <h1>Thank You for Your Response</h1>
            <p>We appreciate you taking the time to respond.</p>
            <p>If you change your mind in the future, feel free to reach out to us anytime.</p>
            <p>Have a great day! ðŸ™‚</p>
        </div>
    </body>
    </html>
    ".

(** [len([c for c in contacts if c['status'] == status])] *)
Fixpoint count_status (contacts : list dict) (status : string) : exn + nat :=
  match contacts with
  | [] => inr 0
  | c :: rest =>
      match c !! "status" with
      | None => inl (KeyError "status")
      | Some v =>
          match count_status rest status with
          | inl e => inl e
          | inr n => inr (if decide (v = VStr status) then S n else n)
          end
      end
  end.

Section with_collaborators.
Context {env : Collaborators}.

Definition load_json (filename : string) : M (list dict) :=
  try_except
    (text ← read_file filename;
     let content := strip text in
     if bool_decide (content = "") then mret []
     else match json_loads content with
          | Some data => mret data
          | None => raise JSONDecodeError
          end)
    (λ e, is_FileNotFoundError e || is_JSONDecodeError e)
    (λ _, mret []).

Definition save_json (filename : string) (data : list dict) : M unit :=
  write_file filename (json_dumps true data).

(** The loop of [update_contact_status]: the first record with the id is
    updated in place, then [break]. *)
Fixpoint update_loop (contacts : list dict) (contact_id : Z) (status : string)
  : M (list dict) :=
  match contacts with
  | [] => mret []
  | contact :: rest =>
      id ← lift (getitem contact "id");
      if decide (id = VInt contact_id) then
        updated_at ← datetime_now;
        mret (<["updated_at" := VStr (isoformat updated_at)]>
              (<["status" := VStr status]> contact) :: rest)
      else
        rest' ← update_loop rest contact_id status;
        mret (contact :: rest')
  end.

Definition update_contact_status (contact_id : Z) (status : string) : M unit :=
  contacts ← load_json CONTACTS_FILE;
  contacts ← update_loop contacts contact_id status;
  save_json CONTACTS_FILE contacts.

Definition track_response (contact_id : Z) (action : string) : M unit :=
  tracking ← load_json TRACKING_FILE;
  (* Find the contact *)
  contacts ← load_json CONTACTS_FILE;
  found ← lift (find_by_id contacts (VInt contact_id) 0);
  match found with
  | Some (_, contact) =>
      if bool_decide (contact = ∅) then mret tt
      else
        name ← lift (getitem contact "name");
        email ← lift (getitem contact "email");
        timestamp ← datetime_now;
        save_json TRACKING_FILE
          (tracking ++ [tracking_entry (VInt contact_id) name email action
                          (isoformat timestamp)])
  | None => mret tt
  end.

(** [GET /interested/{contact_id}] *)
Definition interested (contact_id : Z) : M Response :=
  update_contact_status contact_id "interested";;
  track_response contact_id "interested";;
  mret (RedirectResponse CALENDLY_LINK).

(** [GET /not-interested/{contact_id}] *)
Definition not_interested (contact_id : Z) : M Response :=
  update_contact_status contact_id "not_interested";;
  track_response contact_id "not_interested";;
  mret (HTMLResponse html_content).

(** [tracking[-10:]] *)
Definition last_ten (tracking : list dict) : list dict :=
  drop (length tracking - 10) tracking.

(** [GET /stats] *)
Definition get_stats : M Response :=
  contacts ← load_json CONTACTS_FILE;
  tracking ← load_json TRACKING_FILE;
  let total_contacts := length contacts in
  interested_count ← lift (count_status contacts "interested");
  not_interested_count ← lift (count_status contacts "not_interested");
  pending_count ← lift (count_status contacts "pending");
  response_rate ←
    (if Nat.ltb 0 total_contacts then
       ratio ← lift (truediv (interested_count + not_interested_count) total_contacts);
       mret (format_1f (ratio * float_of_count 100)%float +:+ "%")
     else mret "0%");
  mret (StatsResponse
          {| total_contacts := total_contacts;
             interested_count := interested_count;
             not_interested_count := not_interested_count;
             pending_count := pending_count;
             response_rate := response_rate;
             recent_responses :=
               if Nat.ltb 0 (length tracking) then last_ten tracking else [] |}).

(** [GET /contacts] *)
Definition get_contacts : M Response :=
  contacts ← load_json CONTACTS_FILE;
  mret (ContactsResponse contacts (length contacts)).

End with_collaborators.
End app.

(** * A concrete instance of the collaborators

    A small JSON codec for arrays of flat objects, a mail transport that
    refuses the messages for one listed recipient, and a template engine
    that accepts every template: enough to run the two programs on
    concrete worlds. *)
Module Demo.

Abbreviation chars := (list Ascii.ascii).

Definition dquote : Ascii.ascii := Ascii.ascii_of_nat 34.
Definition backslash : Ascii.ascii := Ascii.ascii_of_nat 92.

(** *** Printing *)

Fixpoint escape (s : chars) : chars :=
  match s with
  | [] => []
  | a :: rest =>
      if decide (a = dquote) then backslash :: dquote :: escape rest
      else if decide (a = backslash) then backslash :: backslash :: escape rest
      else a :: escape rest
  end.

Definition put_string (s : string) : chars :=
  dquote :: escape (String.list_ascii_of_string s) ++ [dquote].

Fixpoint put_uint (d : Decimal.uint) : chars :=
  match d with
  | Decimal.Nil => []
  | Decimal.D0 d => "0"%char :: put_uint d
  | Decimal.D1 d => "1"%char :: put_uint d
  | Decimal.D2 d => "2"%char :: put_uint d
  | Decimal.D3 d => "3"%char :: put_uint d
  | Decimal.D4 d => "4"%char :: put_uint d
  | Decimal.D5 d => "5"%char :: put_uint d
  | Decimal.D6 d => "6"%char :: put_uint d
  | Decimal.D7 d => "7"%char :: put_uint d
  | Decimal.D8 d => "8"%char :: put_uint d
  | Decimal.D9 d => "9"%char :: put_uint d
  end.

Definition put_int (z : Z) : chars :=
  match Z.to_int z with
  | Decimal.Pos d => put_uint d
  | Decimal.Neg d => "-"%char :: put_uint d
  end.

Definition put_value (v : value) : chars :=
  match v with
  | VNone => String.list_ascii_of_string "null"
  | VInt z => put_int z
  | VStr s => put_string s
  end.

Definition put_member (kv : string * value) : chars :=
  put_string kv.1 ++ String.list_ascii_of_string ": " ++ put_value kv.2.

(** The items, with [", "] between them, and [close] after the last. *)
Fixpoint put_items {A} (put : A → chars) (items : list A) (close : Ascii.ascii) : chars :=
  match items with
  | [] => [close]
  | [x] => put x ++ [close]
  | x :: rest => put x ++ String.list_ascii_of_string ", " ++ put_items put rest close
  end.

Definition put_object (d : dict) : chars :=
  "{"%char :: put_items put_member (map_to_list d) "}"%char.

Definition put_array (data : list dict) : chars :=
  "["%char :: put_items put_object data "]"%char.

Definition dumps (ensure_ascii : bool) (data : list dict) : string :=
  String.string_of_list_ascii (put_array data).

(** *** Parsing: a reader returns what it read and the rest of the input. *)

Definition is_ws (a : Ascii.ascii) : bool :=
  let n := Ascii.nat_of_ascii a in
  Nat.eqb n 32 || Nat.eqb n 9 || Nat.eqb n 10 || Nat.eqb n 13.

Fixpoint skip_ws (s : chars) : chars :=
  match s with
  | a :: rest => if is_ws a then skip_ws rest else s
  | [] => []
  end.

(** After the opening quote: the text up to the closing quote. *)
Fixpoint parse_string (s : chars) (acc : chars) : option (string * chars) :=
  match s with
  | [] => None
  | a :: rest =>
      if decide (a = dquote) then Some (String.string_of_list_ascii (rev acc), rest)
      else if decide (a = backslash) then
        match rest with
        | b :: rest' =>
            if bool_decide (b = dquote) || bool_decide (b = backslash)
            then parse_string rest' (b :: acc)
            else None
        | [] => None
        end
      else parse_string rest (a :: acc)
  end.

Definition digit (a : Ascii.ascii) : option (Decimal.uint → Decimal.uint) :=
  if decide (a = "0"%char) then Some Decimal.D0
  else if decide (a = "1"%char) then Some Decimal.D1
  else if decide (a = "2"%char) then Some Decimal.D2
  else if decide (a = "3"%char) then Some Decimal.D3
  else if decide (a = "4"%char) then Some Decimal.D4
  else if decide (a = "5"%char) then Some Decimal.D5
  else if decide (a = "6"%char) then Some Decimal.D6
  else if decide (a = "7"%char) then Some Decimal.D7
  else if decide (a = "8"%char) then Some Decimal.D8
  else if decide (a = "9"%char) then Some Decimal.D9
  else None.

Fixpoint parse_uint (s : chars) : Decimal.uint * chars :=
  match s with
  | a :: rest =>
      match digit a with
      | Some d => let '(n, r) := parse_uint rest in (d n, r)
      | None => (Decimal.Nil, s)
      end
  | [] => (Decimal.Nil, [])
  end.

Definition parse_number (s : chars) : option (Z * chars) :=
  match s with
  | a :: rest =>
      if decide (a = "-"%char) then
        match parse_uint rest with
        | (Decimal.Nil, _) => None
        | (d, r) => Some (Z.of_int (Decimal.Neg d), r)
        end
      else
        match parse_uint s with
        | (Decimal.Nil, _) => None
        | (d, r) => Some (Z.of_int (Decimal.Pos d), r)
        end
  | [] => None
  end.

Definition parse_value (s : chars) : option (value * chars) :=
  match s with
  | "n"%char :: "u"%char :: "l"%char :: "l"%char :: rest => Some (VNone, rest)
  | a :: rest =>
      if decide (a = dquote) then
        '(text, r) ← parse_string rest []; Some (VStr text, r)
      else '(n, r) ← parse_number s; Some (VInt n, r)
  | [] => None
  end.

(** After ["{"]: the members up to the closing brace. *)
Fixpoint parse_members (fuel : nat) (s : chars) (acc : dict) : option (dict * chars) :=
  match fuel with
  | O => None
  | S fuel' =>
      match skip_ws s with
      | a :: rest =>
          if decide (a = dquote) then
            '(key, r) ← parse_string rest [];
            match skip_ws r with
            | ":"%char :: r1 =>
                '(v, r2) ← parse_value (skip_ws r1);
                match skip_ws r2 with
                | ","%char :: r3 => parse_members fuel' r3 (<[key := v]> acc)
                | "}"%char :: r3 => Some (<[key := v]> acc, r3)
                | _ => None
                end
            | _ => None
            end
          else None
      | [] => None
      end
  end.

Definition parse_object (s : chars) : option (dict * chars) :=
  match skip_ws s with
  | "{"%char :: rest =>
      match skip_ws rest with
      | "}"%char :: r => Some (∅, r)
      | _ => parse_members (length rest) rest ∅
      end
  | _ => None
  end.

(** After ["["] and the elements read so far: the elements up to the
    closing bracket. *)
Fixpoint parse_elements (fuel : nat) (s : chars) (acc : list dict)
  : option (list dict * chars) :=
  match fuel with
  | O => None
  | S fuel' =>
      '(d, r) ← parse_object s;
      match skip_ws r with
      | ","%char :: r1 => parse_elements fuel' r1 (d :: acc)
      | "]"%char :: r1 => Some (rev (d :: acc), r1)
      | _ => None
      end
  end.

Definition loads (text : string) : option (list dict) :=
  match skip_ws (String.list_ascii_of_string text) with
  | "["%char :: rest =>
      '(data, r) ← match skip_ws rest with
                    | "]"%char :: r => Some ([], r)
                    | _ => parse_elements (length rest) rest []
                    end;
      match skip_ws r with
      | [] => Some data
      | _ => None
      end
  | _ => None
  end.

(** The transport refuses every message addressed to [refused]. *)
Definition transport (refused : string) (t : Z) (m : Message) : option exn :=
  if decide (msg_to m = VStr refused) then Some (SMTPException "recipient refused")
  else None.

(** [str(e)] *)
Definition describe (e : exn) : string :=
  match e with
  | FileNotFoundError f => "[Errno 2] No such file or directory: '" +:+ f +:+ "'"
  | JSONDecodeError => "Expecting value"
  | KeyError k => "'" +:+ k +:+ "'"
  | TypeError => "unsupported operand"
  | ZeroDivisionError => "division by zero"
  | TemplateError m => m
  | SMTPException m => m
  | ConflictingIdError j => "Job identifier (" +:+ j +:+ ") conflicts with an existing job"
  end.

(** Time stamps are printed as the number of seconds. *)
Definition collaborators (refused : string) : Collaborators :=
  {| COMPANY_NAME := "MindLinks Inc";
     PRODUCT_NAME := "Scheduler";
     SENDER_NAME := "Sales";
     SENDER_EMAIL := "sales@example.com";
     BASE_URL := "http://localhost:8000";
     CALENDLY_LINK := "https://calendly.com/demo";
     json_loads := loads;
     json_dumps := dumps;
     isoformat := λ t, pretty t;
     strftime := λ t format, pretty t;
     Template := λ _, None;
     render := λ template vars, inr (template +:+ str (contact_name vars));
     smtp_submit := transport refused;
     exn_str := describe |}.

Definition env : Collaborators := collaborators "cy@example.com".

(** A contact record as the seed data has it. *)
Definition contact (id : Z) (name email status : string) : dict :=
  <["id" := VInt id]> (<["name" := VStr name]> (<["email" := VStr email]>
  (<["status" := VStr status]> ∅))).

Definition ann : dict := contact 1 "Ann" "ann@example.com" "pending".
Definition bob : dict := contact 2 "Bob" "bob@example.com" "interested".
Definition cy : dict := contact 3 "Cy" "cy@example.com" "pending".
Definition dee : dict := contact 42 "Dee" "dee@example.com" "pending".

(** A world with the given texts of the contact store and of the tracking
    log (no file for [None]), a template, and the given timer. *)
Definition world (contacts tracking : option string) (timer : option (list Job)) : World :=
  {| fs := (match contacts with Some t => <[CONTACTS_FILE := t]> | None => id end)
           ((match tracking with Some t => <[TRACKING_FILE := t]> | None => id end)
            (<[TEMPLATE_FILE := "Hello "]> ∅));
     writes := [];
     reminder_scheduler := timer;
     scheduled := [];
     now := 1000;
     outbox := [];
     stdout := [] |}.

(** The same with the stores given as collections. *)
Definition world_with (contacts tracking : list dict) (timer : option (list Job)) : World :=
  world (Some (dumps false contacts)) (Some (dumps false tracking)) timer.

End Demo.

(** * Specification vocabulary *)

(** A tracking event as the interface shows it: exactly five fields,
    naming the contact, what happened and when. *)
Definition event_of (e : dict) (contact_id name email : value) (action timestamp : string)
  : Prop :=
  e !! "contact_id" = Some contact_id
  ∧ e !! "contact_name" = Some name
  ∧ e !! "contact_email" = Some email
  ∧ e !! "action" = Some (VStr action)
  ∧ e !! "timestamp" = Some (VStr timestamp)
  ∧ base.size e = 5.

(** The record has an id, and it is not [id]. *)
Definition other_id (id : value) (c : dict) : Prop :=
  ∃ v, c !! "id" = Some v ∧ v ≠ id.

(** The record [c] at position [i] is the first one whose id is [id]. *)
Definition first_with_id (contacts : list dict) (id : value) (i : nat) (c : dict) : Prop :=
  contacts !! i = Some c ∧ c !! "id" = Some id ∧ Forall (other_id id) (take i contacts).

(** Every record has an id, and none has the id [id]. *)
Definition no_contact_with_id (contacts : list dict) (id : value) : Prop :=
  Forall (other_id id) contacts.

(** Unfold the monad and the primitive effects in the goal. *)
Ltac mrun :=
  repeat (progress (unfold mbind, M_bind, mret, M_ret, print, datetime_now, sleep,
                      write_file, lift, raise, raise_if; cbv beta iota)).






(** Decide a closed proposition by evaluation. *)
Ltac by_evaluation := apply (bool_decide_unpack _); vm_compute; exact I.

(** The number of records whose status is [status]. *)
Definition with_status (contacts : list dict) (status : string) : nat :=
  length (filter (λ c, c !! "status" = Some (VStr status)) contacts).

(** A log of twelve clicks. *)
Definition click (k : Z) : dict :=
  list_to_map [("contact_id", VInt k); ("contact_name", VStr "Ann");
               ("contact_email", VStr "ann@example.com");
               ("action", VStr "interested"); ("timestamp", VStr "1000")].


(** A record of the data model, as far as the reminder routine reads it:
    it has an id and a name, and its reminder count, if it has one, is an
    integer. *)
Definition well_formed (c : dict) : Prop :=
  is_Some (c !! "id") ∧ is_Some (c !! "name")
  ∧ ∃ n, dict_get c "reminder_count" (VInt 0) = VInt n.

(** The reminders that a record can still get: none unless it is
    pending, and otherwise as many as its count is short of the cap. *)
Definition reminders_left (c : dict) : nat :=
  if Scheduler.is_pending c then
    match dict_get c "reminder_count" (VInt 0) with
    | VInt n => Z.to_nat (Scheduler.MAX_REMINDERS - n)
    | _ => 0
    end
  else 0.

Definition reminder_budget (contacts : list dict) : nat :=
  sum_list (reminders_left <$> contacts).

Definition without_id : dict :=
  <["name" := VStr "Eve"]> (<["email" := VStr "eve@example.com"]> ∅).

Section vocabulary.
Context {env : Collaborators}.

(** What the store file [filename] holds for the campaign engine: the
    parsed document, or nothing when the file is missing. *)
Definition store_is (w : World) (filename : string) (data : list dict) : Prop :=
  match fs w !! filename with
  | Some text => json_loads text = Some data
  | None => data = []
  end.

(** What the store file [filename] holds for the response endpoint, whose
    loader takes a missing, blank or malformed file for an empty store. *)
Definition stored (w : World) (filename : string) : list dict :=
  match fs w !! filename with
  | Some text =>
      if bool_decide (app.strip text = "") then []
      else default [] (json_loads (app.strip text))
  | None => []
  end.

(** The console line of step 1 of the firing routine. *)
Definition not_pending_line (contact_id : value) : string :=
  "⚠️ Contact " +:+ str contact_id +:+ " not found or not pending".

(** The console line of the handler of [send_email]. *)
Definition failure_line (name : value) (e : exn) : string :=
  "❌ Failed to send email to " +:+ str name +:+ ": " +:+ exn_str e.

(** The outcome of each send of a campaign loop, by position, in the
    order of the loop. *)
Fixpoint campaign_outcomes (reminder_interval_minutes : Z) (pending : list nat)
    (st : Scheduler.CampaignLocals) (w : World) : list (nat * bool) :=
  match pending with
  | [] => []
  | i :: rest =>
      match Scheduler.contacts_of st !! i with
      | None => []
      | Some contact =>
          match Scheduler.send_email contact w,
                Scheduler.campaign_iteration reminder_interval_minutes i st w with
          | Ok sent _, Ok st' w' =>
              (i, sent) :: campaign_outcomes reminder_interval_minutes rest st' w'
          | _, _ => []
          end
      end
  end.




(** The records that a campaign run sends to. *)
Definition pending_of (contacts : list dict) : list dict :=
  filter (λ c, Scheduler.is_pending c = true) contacts.

(** Every pending record has the name that the console lines print. *)
Definition pending_named (contacts : list dict) : Prop :=
  Forall (λ c, Scheduler.is_pending c = true → is_Some (c !! "name")) contacts.


(** The world in which the loop of a campaign run starts: the three
    opening lines are on the console. *)
Definition after_banner (interval : option Z) (total : nat) (w : World) : World :=
  set_stdout (λ l, l ++ ["🔔 Reminder interval: "
                          +:+ pretty (default Scheduler.DEFAULT_REMINDER_INTERVAL_MINUTES
                                        interval)
                          +:+ " minutes" +:+ newline])
    (set_stdout (λ l, l ++ ["⏰ Time: " +:+ strftime (now w) "%Y-%m-%d %H:%M:%S"])
       (set_stdout (λ l, l ++ [newline +:+ "📧 Starting email campaign to "
                                +:+ pretty total +:+ " contacts..."]) w)).

(** The locals with which the loop starts. *)
Definition campaign_start (contacts : list dict) : Scheduler.CampaignLocals :=
  {| Scheduler.contacts_of := contacts;
     Scheduler.success_count := 0;
     Scheduler.failed_count := 0 |}.

(** The record after the cap branch. *)
Definition resolved (c : dict) (t : Z) : dict :=
  <["updated_at" := VStr (isoformat t)]> (<["status" := VStr "not_interested"]> c).

(** The record after the reminder that brings its count to [count]. *)
Definition reminded (c : dict) (count : Z) (t : Z) : dict :=
  <["updated_at" := VStr (isoformat t)]>
  (<["last_reminder_sent" := VStr (isoformat t)]>
  (<["reminder_count" := VInt count]> c)).

(** The job that the reminder with ordinal [count] schedules. *)
Definition next_job (id : value) (count : Z) (t : Z) (interval : option Z) : Job :=
  let minutes := default Scheduler.DEFAULT_REMINDER_INTERVAL_MINUTES interval in
  {| job_id := "reminder_" +:+ str id +:+ "_" +:+ pretty (count + 1)%Z;
     run_date := (t + 60 * minutes)%Z;
     job_args := (id, minutes) |}.

(** No [reminder_count] above the cap. *)
Definition within_cap (contacts : list dict) : Prop :=
  Forall (λ c, ∀ n, c !! "reminder_count" = Some (VInt n) → (n ≤ Scheduler.MAX_REMINDERS)%Z)
    contacts.

(** The record after a click. *)
Definition answered (c : dict) (status : string) (t : Z) : dict :=
  <["updated_at" := VStr (isoformat t)]> (<["status" := VStr status]> c).

(** The response endpoint reads [data] back from what it wrote. *)
Definition reloads (data : list dict) : Prop :=
  app.strip (json_dumps true data) ≠ ""
  ∧ json_loads (app.strip (json_dumps true data)) = Some data.

(** The world after [app.save_json filename data]. *)
Definition saved (filename : string) (data : list dict) (w : World) : World :=
  set_writes (λ l, l ++ [filename]) (set_fs <[filename := json_dumps true data]> w).


(** What may follow a value: a comma or a closing brace. *)
Definition ends_value (rest : Demo.chars) : Prop :=
  ∃ a r, rest = a :: r ∧ (a = ","%char ∨ a = "}"%char).

(** The map that [Demo.parse_members] builds from the members it reads. *)
Definition collect (acc : dict) (members : list (string * value)) : dict :=
  foldl (λ acc kv, <[kv.1 := kv.2]> acc) acc members.

(** The console line of the handler of [send_reminder_email]. *)
Definition reminder_failure_line (name : value) (e : exn) : string :=
  "❌ Failed to send reminder to " +:+ str name +:+ ": " +:+ exn_str e.

(** The tracking event of the reminder with ordinal [count]. *)
Definition reminder_event (id name email : value) (count : Z) (t : Z) : dict :=
  tracking_entry id name email ("reminder_" +:+ pretty count +:+ "_sent") (isoformat t).


(** The world after the timer has fired the jobs [jobs], in this order. *)
Definition fire_all (jobs : list Job) (w : World) : World :=
  foldl (λ w j, world_of (Scheduler.fire j w)) w jobs.

(** The world after a click for the record [c] at position [i]: both
    stores rewritten, the contact store first. *)
Definition after_click (w : World) (id : Z) (i : nat) (c : dict) (name email : value)
    (status : string) : World :=
  saved TRACKING_FILE
    (stored w TRACKING_FILE
     ++ [tracking_entry (VInt id) name email status (isoformat (now w))])
    (saved CONTACTS_FILE (<[i := answered c status (now w)]> (stored w CONTACTS_FILE)) w).

End vocabulary.

(** Example worlds for the concrete collaborators. *)


(** A collection with two pending contacts, one of them refused by the
    transport, and a resolved one. *)
Definition campaign_contacts : list dict := [Demo.ann; Demo.bob; Demo.cy].

Definition campaign_world : World := Demo.world_with campaign_contacts [] (Some []).


(** A pending contact one reminder short of the cap, and the message of
    its third reminder. *)
Definition twice_reminded : dict := <["reminder_count" := VInt 2]> Demo.ann.

Definition third_reminder : Message :=
  {| msg_subject := Scheduler.reminder_subject (env := Demo.env);
     msg_from := "Sales <sales@example.com>";
     msg_to := VStr "ann@example.com";
     msg_html := "Hello Ann" |}.

(** A pending contact whose count stands at the cap. *)
Definition capped : dict := <["reminder_count" := VInt 3]> Demo.ann.

(** The reminder that the concrete collaborators compose for a contact. *)
Definition reminder_for (name email : string) : Message :=
  {| msg_subject := Scheduler.reminder_subject (env := Demo.env);
     msg_from := "Sales <sales@example.com>";
     msg_to := VStr email;
     msg_html := "Hello " +:+ name |}.

(** Records outside the data model, for the concrete environment: one
    without a name, one without an id. *)
Definition nameless : dict :=
  <["id" := VInt 9]> (<["email" := VStr "x@example.com"]> (<["status" := VStr "pending"]> ∅)).

(** * Properties *)

(** ** Reasoning about the monad *)

Lemma bind_Ok {A B} (m : M A) (f : A → M B) w a w' :
  m w = Ok a w' → (m ≫= f) w = f a w'.
Proof. intros E. unfold mbind, M_bind. by rewrite E. Qed.

Lemma bind_Raise {A B} (m : M A) (f : A → M B) w e w' :
  m w = Raise e w' → (m ≫= f) w = Raise e w'.
Proof. intros E. unfold mbind, M_bind. by rewrite E. Qed.

Lemma try_except_Ok {A} (body : M A) caught handler w a w' :
  body w = Ok a w' → try_except body caught handler w = Ok a w'.
Proof. intros E. unfold try_except. by rewrite E. Qed.

Lemma try_except_Raise {A} (body : M A) caught handler w e w' :
  body w = Raise e w' →
  try_except body caught handler w = if caught e then handler e w' else Raise e w'.
Proof. intros E. unfold try_except. by rewrite E. Qed.

Lemma tracking_is_not_contacts : TRACKING_FILE ≠ CONTACTS_FILE.
Proof. done. Qed.

Lemma tracking_entry_event contact_id name email action timestamp :
  event_of (tracking_entry contact_id name email action timestamp)
    contact_id name email action timestamp.
Proof.
  unfold event_of, tracking_entry.
  repeat split; rewrite ?lookup_insert_ne by done; by rewrite ?lookup_insert_eq.
Qed.

Section persistence.
Context {env : Collaborators}.

Lemma Scheduler_load_json_store w filename data :
  store_is w filename data → Scheduler.load_json filename w = Ok data w.
Proof.
  unfold store_is, Scheduler.load_json, try_except, read_file, mbind, M_bind.
  destruct (fs w !! filename) as [text|]; simpl.
  - by intros ->.
  - by intros ->.
Qed.

Lemma Scheduler_load_json_missing w filename :
  fs w !! filename = None → Scheduler.load_json filename w = Ok [] w.
Proof. intros E. apply Scheduler_load_json_store. unfold store_is. by rewrite E. Qed.

Lemma Scheduler_load_json_malformed w filename text :
  fs w !! filename = Some text → json_loads text = None →
  Scheduler.load_json filename w = Raise JSONDecodeError w.
Proof.
  intros E1 E2.
  unfold Scheduler.load_json, try_except, read_file, mbind, M_bind.
  by rewrite E1, E2.
Qed.

Lemma app_load_json_stored w filename :
  app.load_json filename w = Ok (stored w filename) w.
Proof.
  unfold stored, app.load_json, try_except, read_file, mbind, M_bind.
  destruct (fs w !! filename) as [text|]; simpl; [|done].
  case_bool_decide; [done|].
  by destruct (json_loads (app.strip text)).
Qed.

Lemma Scheduler_load_json_inv filename w :
  match Scheduler.load_json filename w with
  | Ok data w' => w' = w ∧ store_is w filename data
  | Raise e w' => w' = w
  end.
Proof.
  unfold Scheduler.load_json, try_except, read_file, store_is, mbind, M_bind.
  destruct (fs w !! filename) as [text|]; simpl; [|done].
  by destruct (json_loads text).
Qed.

End persistence.

Lemma find_by_id_first contacts id i c k :
  first_with_id contacts id i c → find_by_id contacts id k = inr (Some (k + i, c)).
Proof.
  revert i k. induction contacts as [|c0 rest IH]; intros i k (Hi & Hid & Hbefore).
  - done.
  - destruct i as [|i]; simpl in *.
    + injection Hi as ->. rewrite Hid. rewrite decide_True by done.
      by rewrite Nat.add_0_r.
    + apply Forall_cons in Hbefore as [(v & Hv & Hne) Hbefore].
      rewrite Hv. rewrite decide_False by done.
      rewrite (IH i (S k)); [|done]. do 3 f_equal. lia.
Qed.

Lemma find_by_id_none contacts id k :
  no_contact_with_id contacts id → find_by_id contacts id k = inr None.
Proof.
  revert k. induction contacts as [|c0 rest IH]; intros k Hall; [done|].
  apply Forall_cons in Hall as [(v & Hv & Hne) Hall]. simpl.
  rewrite Hv. rewrite decide_False by done. by apply IH.
Qed.

(** Conversely, what [find_by_id] returns is the first record with the id. *)
Lemma find_by_id_Some contacts id k j c :
  find_by_id contacts id k = inr (Some (j, c)) →
  ∃ i, j = k + i ∧ first_with_id contacts id i c.
Proof.
  revert k. induction contacts as [|c0 rest IH]; intros k; simpl; [done|].
  destruct (c0 !! "id") as [v|] eqn:Hv; [|done].
  destruct (decide (v = id)) as [->|Hne].
  - intros [= <- <-]. exists 0. split; [lia|]. by repeat split.
  - intros (i & -> & Hi & Hid & Hbefore)%IH.
    exists (S i). split; [lia|]. repeat split; try done.
    simpl. constructor; [by exists v|done].
Qed.

Section reminder.
Context {env : Collaborators}.

Lemma send_reminder_email_unknown w contact_id interval contacts :
  store_is w CONTACTS_FILE contacts →
  no_contact_with_id contacts contact_id →
  Scheduler.send_reminder_email contact_id interval w
  = Ok tt (set_stdout (λ l, l ++ [not_pending_line contact_id]) w).
Proof.
  intros Hstore Hnone. unfold Scheduler.send_reminder_email.
  rewrite (bind_Ok _ _ _ _ _ (Scheduler_load_json_store _ _ _ Hstore)).
  rewrite (find_by_id_none _ _ 0 Hnone). done.
Qed.

Lemma send_reminder_email_resolved w contact_id interval contacts i c :
  store_is w CONTACTS_FILE contacts →
  first_with_id contacts contact_id i c →
  Scheduler.is_pending c = false →
  Scheduler.send_reminder_email contact_id interval w
  = Ok tt (set_stdout (λ l, l ++ [not_pending_line contact_id]) w).
Proof.
  intros Hstore Hfirst Hstatus. unfold Scheduler.send_reminder_email.
  rewrite (bind_Ok _ _ _ _ _ (Scheduler_load_json_store _ _ _ Hstore)).
  rewrite (find_by_id_first _ _ _ _ 0 Hfirst). mrun.
  rewrite Hstatus. by rewrite orb_true_r.
Qed.

End reminder.

Section notifier.
Context {env : Collaborators}.

(** Composing a message reads the template and the record, and changes
    nothing. *)
Lemma compose_inv contact subject reminder w :
  match Scheduler.compose contact subject reminder w with
  | Ok (id, name, email, message) w' =>
      w' = w ∧ contact !! "id" = Some id ∧ contact !! "name" = Some name
      ∧ contact !! "email" = Some email
      ∧ msg_to message = email ∧ msg_subject message = subject
  | Raise e w' => w' = w
  end.
Proof.
  unfold Scheduler.compose, Scheduler.load_email_template, read_file, getitem. mrun.
  destruct (fs w !! TEMPLATE_FILE) as [template|]; [|done].
  destruct (Template template); [done|].
  destruct (contact !! "id") as [id|]; [|done].
  destruct (contact !! "name") as [name|]; [|done].
  destruct (contact !! "email") as [email|]; [|done].
  by destruct (render _ _).
Qed.

(** The handler of [send_email] returns [False] when the record has a name. *)
Lemma send_email_handler contact name e w :
  contact !! "name" = Some name →
  (name ← lift (getitem contact "name");
   print ("❌ Failed to send email to " +:+ str name +:+ ": " +:+ exn_str e);;
   mret false) w
  = Ok false (set_stdout (λ l, l ++ [failure_line name e]) w).
Proof. intros Hname. unfold getitem. rewrite Hname. done. Qed.

(** With a name in the record, [send_email] returns; it never raises. *)
Lemma send_email_total contact w :
  is_Some (contact !! "name") → ∃ b w', Scheduler.send_email contact w = Ok b w'.
Proof.
  intros [name Hname]. unfold Scheduler.send_email, try_except.
  match goal with |- context [match ?body w with _ => _ end] =>
    destruct (body w) as [b w'|e w'] end.
  - eauto.
  - unfold Exception. rewrite (send_email_handler _ _ _ _ Hname). eauto.
Qed.

(** A message that the transport refuses is reported as [False]. *)
Lemma send_email_transport_error contact w id name email message e :
  Scheduler.compose contact Scheduler.initial_subject None w
    = Ok (id, name, email, message) w →
  smtp_submit (now w) message = Some e →
  Scheduler.send_email contact w
  = Ok false (set_stdout (λ l, l ++ [failure_line name e]) w).
Proof.
  intros Hcompose Hsmtp.
  pose proof (compose_inv contact Scheduler.initial_subject None w) as Hinv.
  rewrite Hcompose in Hinv. destruct Hinv as (_ & _ & Hname & _).
  unfold Scheduler.send_email.
  erewrite try_except_Raise.
  - unfold Exception. by apply send_email_handler.
  - rewrite (bind_Ok _ _ _ _ _ Hcompose).
    apply bind_Raise. unfold Scheduler.smtp_send. by rewrite Hsmtp.
Qed.

(** [True] comes only after the transport accepted the message; the
    tracking log then has one more event and has been written once. *)
Lemma send_email_true contact w w' :
  Scheduler.send_email contact w = Ok true w' →
  ∃ id name email message tracking,
    Scheduler.compose contact Scheduler.initial_subject None w
      = Ok (id, name, email, message) w
    ∧ smtp_submit (now w) message = None
    ∧ Scheduler.load_json TRACKING_FILE w = Ok tracking w
    ∧ w' = set_stdout (λ l, l ++ ["✅ Email sent successfully to " +:+ str name
                                    +:+ " (" +:+ str email +:+ ")"])
             (set_writes (λ l, l ++ [TRACKING_FILE])
                (set_fs <[TRACKING_FILE :=
                           json_dumps false
                             (tracking ++ [tracking_entry id name email "email_sent"
                                             (isoformat (now w))])]>
                   (set_outbox (λ l, l ++ [message]) w))).
Proof.
  unfold Scheduler.send_email, try_except.
  pose proof (compose_inv contact Scheduler.initial_subject None w) as Hinv.
  unfold mbind at 1, M_bind at 1.
  destruct (Scheduler.compose contact Scheduler.initial_subject None w)
    as [[[[id name] email] message] w1|e w1].
  - destruct Hinv as (-> & Hid & Hname & Hemail & Hto & Hsubj).
    unfold mbind at 1, M_bind at 1. unfold Scheduler.smtp_send at 1.
    destruct (smtp_submit (now w) message) as [e|] eqn:Hsmtp.
    { unfold Exception. rewrite (send_email_handler _ _ _ _ Hname). done. }
    unfold mbind at 1, M_bind at 1.
    destruct (Scheduler.load_json TRACKING_FILE _) as [tracking w2|e w2] eqn:Hload.
    2:{ unfold Exception. rewrite (send_email_handler _ _ _ _ Hname). done. }
    assert (w2 = set_outbox (λ l, l ++ [message]) w
            ∧ Scheduler.load_json TRACKING_FILE w = Ok tracking w) as [-> Hload'].
    { revert Hload. unfold Scheduler.load_json, try_except, read_file. mrun. simpl.
      destruct (fs w !! TRACKING_FILE) as [text|]; simpl.
      - destruct (json_loads text); [|done]. by intros [= -> <-].
      - by intros [= <- <-]. }
    mrun. unfold Scheduler.save_json. mrun.
    intros [= <-]. by exists id, name, email, message, tracking.
  - subst w1. destruct (contact !! "name") as [name|] eqn:Hname.
    + unfold Exception. rewrite (send_email_handler _ _ _ _ Hname). done.
    + unfold Exception, getitem. rewrite Hname. done.
Qed.


(** Whichever way [send_email] ends, only the tracking log can change
    among the files, the timer and the clock are as they were, and at
    most one message, the initial one for the record's own address, has
    been accepted by the transport. *)
Lemma send_email_frame contact w :
  let w' := world_of (Scheduler.send_email contact w) in
  (∀ filename, filename ≠ TRACKING_FILE → fs w' !! filename = fs w !! filename)
  ∧ reminder_scheduler w' = reminder_scheduler w
  ∧ scheduled w' = scheduled w
  ∧ now w' = now w
  ∧ (outbox w' = outbox w
     ∨ ∃ message, outbox w' = outbox w ++ [message]
                  ∧ contact !! "email" = Some (msg_to message)
                  ∧ msg_subject message = Scheduler.initial_subject
                  ∧ smtp_submit (now w) message = None).
Proof.
  intros w'.
  assert (∀ e w0 r,
            r = (name ← lift (getitem contact "name");
                 print ("❌ Failed to send email to " +:+ str name +:+ ": " +:+ exn_str e);;
                 mret false) w0 →
            fs (world_of r) = fs w0 ∧ outbox (world_of r) = outbox w0
            ∧ reminder_scheduler (world_of r) = reminder_scheduler w0
            ∧ scheduled (world_of r) = scheduled w0
            ∧ now (world_of r) = now w0) as Hhandler.
  { intros e w0 r ->. unfold getitem. mrun. by destruct (contact !! "name"). }
  subst w'. remember (Scheduler.send_email contact w) as r eqn:Hr.
  unfold Scheduler.send_email, try_except in Hr.
  pose proof (compose_inv contact Scheduler.initial_subject None w) as Hinv.
  unfold mbind at 1, M_bind at 1 in Hr.
  destruct (Scheduler.compose contact Scheduler.initial_subject None w)
    as [[[[id name] email] message] w1|e w1].
  2:{ subst w1. unfold Exception in Hr. cbv beta iota in Hr.
      destruct (Hhandler e w r Hr) as (-> & -> & -> & -> & ->). by auto 10. }
  destruct Hinv as (-> & _ & _ & Hemail & Hto & Hsubject).
  unfold mbind at 1, M_bind at 1 in Hr. unfold Scheduler.smtp_send at 1 in Hr.
  destruct (smtp_submit (now w) message) as [e|] eqn:Hsmtp.
  { unfold Exception in Hr. cbv beta iota in Hr.
    destruct (Hhandler e w r Hr) as (-> & -> & -> & -> & ->). by auto 10. }
  assert (∃ message', outbox w ++ [message] = outbox w ++ [message']
                      ∧ contact !! "email" = Some (msg_to message')
                      ∧ msg_subject message' = Scheduler.initial_subject
                      ∧ smtp_submit (now w) message' = None) as Hsent.
  { exists message. by rewrite Hto. }
  unfold mbind at 1, M_bind at 1 in Hr.
  pose proof (Scheduler_load_json_inv TRACKING_FILE (set_outbox (λ l, l ++ [message]) w))
    as Hload.
  destruct (Scheduler.load_json TRACKING_FILE _) as [tracking w2|e w2].
  - destruct Hload as [-> _]. revert Hr. unfold Scheduler.save_json. mrun. intros ->. cbn.
    repeat split; [|by right].
    intros filename Hne. by rewrite lookup_insert_ne.
  - subst w2. unfold Exception in Hr. cbv beta iota in Hr.
    destruct (Hhandler e (set_outbox (λ l, l ++ [message]) w) r Hr)
      as (-> & -> & -> & -> & ->).
    repeat split. by right.
Qed.

End notifier.

(** ** The pending positions *)




Lemma pending_positions_length contacts k :
  length (Scheduler.pending_positions contacts k)
  = length (filter (λ c, Scheduler.is_pending c = true) contacts).
Proof.
  revert k. induction contacts as [|c rest IH]; intros k; simpl; [done|].
  rewrite filter_cons. destruct (Scheduler.is_pending c) eqn:Hc.
  - rewrite decide_True by done. simpl. by rewrite IH.
  - rewrite decide_False by done. by rewrite IH.
Qed.

Section campaign.
Context {env : Collaborators}.

Lemma mark_sent_lookup_ne contact t k :
  k ≠ "updated_at" → k ≠ "sent_at" → k ≠ "reminder_count" → k ≠ "last_reminder_sent" →
  Scheduler.mark_sent contact t !! k = contact !! k.
Proof.
  intros. unfold Scheduler.mark_sent.
  repeat case_match; by rewrite ?lookup_insert_ne.
Qed.

Lemma mark_sent_status contact t :
  Scheduler.is_pending (Scheduler.mark_sent contact t) = Scheduler.is_pending contact.
Proof.
  unfold Scheduler.is_pending, dict_get. by rewrite mark_sent_lookup_ne.
Qed.

Lemma add_job_fresh j w :
  (∀ jobs, reminder_scheduler w = Some jobs → job_id j ∉ job_id <$> jobs) →
  Scheduler.add_job j w
  = Ok tt (match reminder_scheduler w with
           | Some jobs => set_scheduled (λ l, l ++ [j])
                            (set_reminder_scheduler (λ _, Some (jobs ++ [j])) w)
           | None => w
           end).
Proof.
  intros Hfresh. unfold Scheduler.add_job.
  destruct (reminder_scheduler w) as [jobs|]; [|done].
  by rewrite bool_decide_eq_false_2 by (by apply Hfresh).
Qed.








End campaign.




Section campaign_loop.
Context {env : Collaborators}.




End campaign_loop.

Section campaign_run.
Context {env : Collaborators}.


Lemma pending_positions_nil contacts :
  Scheduler.pending_positions contacts 0 = [] ↔ pending_of contacts = [].
Proof.
  rewrite <- !length_zero_iff_nil. unfold pending_of.
  by rewrite pending_positions_length.
Qed.


(** A run with nothing pending: one console line, nothing else. *)
Lemma send_emails_to_all_idle interval w contacts :
  store_is w CONTACTS_FILE contacts →
  pending_of contacts = [] →
  Scheduler.send_emails_to_all interval w
  = Ok None (set_stdout (λ l, l ++ ["No pending contacts to send emails to."]) w).
Proof.
  intros Hstore Hnone%pending_positions_nil. unfold Scheduler.send_emails_to_all.
  rewrite (bind_Ok _ _ _ _ _ (Scheduler_load_json_store _ _ _ Hstore)).
  by rewrite Hnone.
Qed.





End campaign_run.

Section reminder_chain.
Context {env : Collaborators}.

Lemma first_with_id_nonempty contacts id i c :
  first_with_id contacts id i c → bool_decide (c = ∅) = false.
Proof.
  intros (_ & Hid & _). apply bool_decide_eq_false. intros ->.
  by rewrite lookup_empty in Hid.
Qed.

(** Step 2 of the firing routine: at or above the cap the contact is
    resolved, the store is written once, and nothing is scheduled. *)
Lemma send_reminder_email_cap w id interval contacts i c n name :
  store_is w CONTACTS_FILE contacts →
  first_with_id contacts id i c →
  Scheduler.is_pending c = true →
  dict_get c "reminder_count" (VInt 0) = VInt n →
  (n >= Scheduler.MAX_REMINDERS)%Z →
  c !! "name" = Some name →
  Scheduler.send_reminder_email id interval w
  = Ok tt (set_stdout (λ l, l ++ ["🚫 Max reminders (" +:+ pretty Scheduler.MAX_REMINDERS
                                   +:+ ") reached for " +:+ str name
                                   +:+ " - Marked as not_interested"])
             (set_writes (λ l, l ++ [CONTACTS_FILE])
                (set_fs <[CONTACTS_FILE :=
                           json_dumps false (<[i := resolved c (now w)]> contacts)]> w))).
Proof.
  intros Hstore Hfirst Hpending Hcount Hcap Hname.
  unfold Scheduler.send_reminder_email.
  rewrite (bind_Ok _ _ _ _ _ (Scheduler_load_json_store _ _ _ Hstore)).
  rewrite (find_by_id_first _ _ _ _ 0 Hfirst). mrun.
  rewrite (first_with_id_nonempty _ _ _ _ Hfirst), Hpending, Hcount. simpl.
  rewrite bool_decide_eq_true_2 by done.
  unfold Scheduler.save_json, getitem. mrun.
  rewrite !lookup_insert_ne by done. rewrite Hname. done.
Qed.

(** Step 3: below the cap, a reminder that the transport accepts is
    counted, logged and persisted, and the next job is scheduled only
    while the new count is below the cap. *)
Lemma send_reminder_email_sent w id interval contacts i c n cid name email message tracking :
  store_is w CONTACTS_FILE contacts →
  first_with_id contacts id i c →
  Scheduler.is_pending c = true →
  dict_get c "reminder_count" (VInt 0) = VInt n →
  (n < Scheduler.MAX_REMINDERS)%Z →
  Scheduler.compose c Scheduler.reminder_subject (Some (n + 1)%Z) w
    = Ok (cid, name, email, message) w →
  smtp_submit (now w) message = None →
  store_is w TRACKING_FILE tracking →
  ((n + 1 < Scheduler.MAX_REMINDERS)%Z →
   ∀ jobs, reminder_scheduler w = Some jobs →
           job_id (next_job cid (n + 1) (now w) interval) ∉ job_id <$> jobs) →
  ∃ w',
    Scheduler.send_reminder_email id interval w = Ok tt w'
    ∧ fs w' = <[CONTACTS_FILE :=
                 json_dumps false (<[i := reminded c (n + 1) (now w)]> contacts)]>
              (<[TRACKING_FILE :=
                  json_dumps false
                    (tracking ++ [tracking_entry cid name email
                                    ("reminder_" +:+ pretty (n + 1)%Z +:+ "_sent")
                                    (isoformat (now w))])]> (fs w))
    ∧ writes w' = writes w ++ [TRACKING_FILE; CONTACTS_FILE]
    ∧ outbox w' = outbox w ++ [message]
    ∧ reminder_scheduler w'
      = if bool_decide (n + 1 < Scheduler.MAX_REMINDERS)%Z
        then (λ jobs, jobs ++ [next_job cid (n + 1) (now w) interval])
               <$> reminder_scheduler w
        else reminder_scheduler w.
Proof.
  intros Hstore Hfirst Hpending Hcount Hcap Hcompose Hsmtp Htracking Hfresh.
  unfold Scheduler.send_reminder_email.
  rewrite (bind_Ok _ _ _ _ _ (Scheduler_load_json_store _ _ _ Hstore)).
  rewrite (find_by_id_first _ _ _ _ 0 Hfirst). mrun.
  rewrite (first_with_id_nonempty _ _ _ _ Hfirst), Hpending, Hcount. simpl.
  rewrite bool_decide_eq_false_2 by lia.
  unfold try_except. rewrite Hcompose.
  unfold Scheduler.smtp_send. rewrite Hsmtp.
  assert (store_is (set_outbox (λ l, l ++ [message]) w) TRACKING_FILE tracking) as Ht
    by done.
  rewrite (Scheduler_load_json_store _ _ _ Ht).
  unfold Scheduler.save_json, Scheduler.get_reminder_scheduler. mrun.
  case_bool_decide as Hnext.
  - cbn. destruct (reminder_scheduler w) as [jobs|] eqn:Hs.
    + fold (next_job cid (n + 1) (now w) interval).
      rewrite add_job_fresh;
        [|intros jobs' Hjobs'; cbn in Hjobs'; apply Hfresh; [done|congruence]].
      cbn. rewrite Hs. mrun. eexists. split; [reflexivity|]. cbn.
      by rewrite <- ?app_assoc.
    + eexists. split; [reflexivity|]. cbn. rewrite ?Hs. by rewrite <- ?app_assoc.
  - eexists. split; [reflexivity|]. cbn. by rewrite <- ?app_assoc.
Qed.

End reminder_chain.

Section reminder_effect.
Context {env : Collaborators}.

(** Everything a firing of the reminder routine can do to the contact
    store and to the timer, whichever way it ends: nothing, or the cap
    branch, or a counted reminder. *)
Lemma send_reminder_email_effect w id interval :
  let w' := world_of (Scheduler.send_reminder_email id interval w) in
  (fs w' !! CONTACTS_FILE = fs w !! CONTACTS_FILE
   ∧ reminder_scheduler w' = reminder_scheduler w)
  ∨ ∃ contacts i c n,
      store_is w CONTACTS_FILE contacts ∧ first_with_id contacts id i c
      ∧ Scheduler.is_pending c = true
      ∧ dict_get c "reminder_count" (VInt 0) = VInt n
      ∧ ((n >= Scheduler.MAX_REMINDERS)%Z
         ∧ fs w' !! CONTACTS_FILE
           = Some (json_dumps false (<[i := resolved c (now w)]> contacts))
         ∧ reminder_scheduler w' = reminder_scheduler w
         ∨ (n < Scheduler.MAX_REMINDERS)%Z
           ∧ fs w' !! CONTACTS_FILE
             = Some (json_dumps false (<[i := reminded c (n + 1) (now w)]> contacts))
           ∧ (reminder_scheduler w' = reminder_scheduler w
              ∨ (n + 1 < Scheduler.MAX_REMINDERS)%Z
                ∧ ∃ j, reminder_scheduler w' = (λ jobs, jobs ++ [j]) <$> reminder_scheduler w)).
Proof.
  intros w'. subst w'.
  remember (Scheduler.send_reminder_email id interval w) as r eqn:Hr.
  unfold Scheduler.send_reminder_email in Hr.
  pose proof (Scheduler_load_json_inv CONTACTS_FILE w) as Hload.
  unfold mbind at 1, M_bind at 1 in Hr.
  destruct (Scheduler.load_json CONTACTS_FILE w) as [contacts w0|e w0];
    [destruct Hload as [-> Hstore]|subst; by left].
  unfold mbind at 1, M_bind at 1 in Hr.
  destruct (find_by_id contacts id 0) as [e|[[i c]|]] eqn:Hfind;
    [subst; by left| |subst; by left].
  apply find_by_id_Some in Hfind as (i' & -> & Hfirst). simpl in Hr.
  rewrite (first_with_id_nonempty _ _ _ _ Hfirst) in Hr. simpl in Hr.
  destruct (Scheduler.is_pending c) eqn:Hpending; [|subst; by left]. simpl in Hr.
  unfold mbind at 1, M_bind at 1 in Hr.
  destruct (dict_get c "reminder_count" (VInt 0)) as [|n|] eqn:Hcount;
    [subst; by left| |subst; by left].
  simpl in Hr. case_bool_decide as Hcap.
  - right. exists contacts, i', c, n. do 4 (split; [done|]). left. split; [done|].
    revert Hr. unfold Scheduler.save_json, getitem. mrun. fold (resolved c (now w)).
    intros ->. destruct (resolved c (now w) !! "name"); cbn; by rewrite lookup_insert_eq.
  - unfold try_except in Hr.
    pose proof (compose_inv c Scheduler.reminder_subject (Some (n + 1)%Z) w) as Hinv.
    unfold mbind at 1, M_bind at 1 in Hr.
    destruct (Scheduler.compose c Scheduler.reminder_subject (Some (n + 1)%Z) w)
      as [[[[cid name] email] message] w1|e w1].
    2:{ subst w1. left. subst r. unfold Exception, getitem. by destruct (c !! "name"). }
    destruct Hinv as (-> & Hid & Hname & _).
    unfold Scheduler.smtp_send at 1 in Hr. unfold mbind at 1, M_bind at 1 in Hr.
    destruct (smtp_submit (now w) message).
    { left. subst r. unfold Exception, getitem. by rewrite Hname. }
    unfold mbind at 1, M_bind at 1 in Hr. unfold datetime_now at 1 in Hr.
    unfold mbind at 1, M_bind at 1 in Hr.
    pose proof (Scheduler_load_json_inv TRACKING_FILE
                  (set_outbox (λ l, l ++ [message]) w)) as Hload.
    destruct (Scheduler.load_json TRACKING_FILE _) as [tracking w2|e w2].
    2:{ subst w2. left. subst r. unfold Exception, getitem. by rewrite Hname. }
    destruct Hload as [-> _].
    right. exists contacts, i', c, n. do 4 (split; [done|]). right. split; [lia|].
    revert Hr.
    unfold Scheduler.save_json, Scheduler.get_reminder_scheduler, Scheduler.add_job. mrun.
    fold (reminded c (n + 1) (now w)).
    case_bool_decide as Hnext; cbn.
    + destruct (reminder_scheduler w) as [jobs|] eqn:Hs.
      * cbn. rewrite ?Hs. case_bool_decide as Hconflict; intros ->.
        -- unfold Exception, getitem. rewrite Hname. cbn.
           split; [by rewrite lookup_insert_eq|]. by left.
        -- cbn. rewrite ?Hs. split; [by rewrite lookup_insert_eq|].
           right. split; [done|]. by eexists.
      * intros ->. cbn. rewrite ?Hs. split; [by rewrite lookup_insert_eq|]. by left.
    + intros ->. cbn. split; [by rewrite lookup_insert_eq|]. by left.
Qed.

(** The cap is an invariant of the firing routine: whatever it writes to
    the contact store keeps every [reminder_count] at or below the cap. *)
Lemma send_reminder_email_within_cap w id interval contacts text :
  store_is w CONTACTS_FILE contacts →
  within_cap contacts →
  fs (world_of (Scheduler.send_reminder_email id interval w)) !! CONTACTS_FILE = Some text →
  fs w !! CONTACTS_FILE = Some text
  ∨ ∃ contacts', text = json_dumps false contacts' ∧ within_cap contacts'.
Proof.
  intros Hstore Hcap.
  destruct (send_reminder_email_effect w id interval)
    as [[-> _]|(contacts' & i & c & n & Hstore' & Hfirst & _ & Hcount & Hcases)];
    [by left|].
  assert (contacts' = contacts) as ->.
  { unfold store_is in *. destruct (fs w !! CONTACTS_FILE); congruence. }
  assert (∀ c', (∀ m, c' !! "reminder_count" = Some (VInt m) → (m ≤ Scheduler.MAX_REMINDERS)%Z) →
                within_cap (<[i := c']> contacts)) as Hins.
  { intros c' Hc'. unfold within_cap. apply Forall_insert; [done|]. apply Hc'. }
  destruct Hfirst as (Hi & _).
  destruct Hcases as [(_ & -> & _)|(Hlt & -> & _)]; intros [= <-]; right; eexists;
    (split; [done|]); apply Hins; intros m.
  - unfold resolved. rewrite !lookup_insert_ne by done.
    eapply Forall_lookup_1 in Hcap; [|done]. apply Hcap.
  - unfold reminded. rewrite !lookup_insert_ne by done. rewrite lookup_insert_eq.
    intros [= <-]. lia.
Qed.

(** A campaign run keeps it too: a successful send writes a
    [reminder_count] only where there was none, and then writes 0. *)
Lemma mark_sent_within_cap c t n :
  (∀ m, c !! "reminder_count" = Some (VInt m) → (m ≤ Scheduler.MAX_REMINDERS)%Z) →
  Scheduler.mark_sent c t !! "reminder_count" = Some (VInt n) →
  (n ≤ Scheduler.MAX_REMINDERS)%Z.
Proof.
  intros Hc. unfold Scheduler.mark_sent.
  rewrite !lookup_insert_ne by done.
  destruct (c !! "reminder_count") as [v|] eqn:Hv.
  - destruct (_ !! "last_reminder_sent");
      rewrite ?lookup_insert_ne by done; rewrite ?lookup_insert_ne by done;
      rewrite Hv; intros [= ->]; by apply Hc.
  - destruct (_ !! "last_reminder_sent");
      rewrite ?lookup_insert_ne by done; rewrite lookup_insert_eq;
      intros [= <-]; unfold Scheduler.MAX_REMINDERS; lia.
Qed.

(** Scheduling a first reminder writes no file, however it ends. *)
Lemma schedule_first_reminder_fs contact t interval w :
  fs (world_of (Scheduler.schedule_first_reminder contact t interval w)) = fs w.
Proof.
  unfold Scheduler.schedule_first_reminder, Scheduler.get_reminder_scheduler,
    Scheduler.add_job, getitem. mrun.
  destruct (reminder_scheduler w) as [jobs|] eqn:Hs; [|done].
  destruct (contact !! "id") as [id|]; [|done]. cbn. rewrite Hs.
  case_bool_decide; [done|]. cbn.
  by destruct (contact !! "name").
Qed.

(** One iteration of the loop leaves the contact store on disk alone, and
    changes the loop's records only by stamping the one it sent to. *)
Lemma campaign_iteration_frame interval i st w :
  let r := Scheduler.campaign_iteration interval i st w in
  fs (world_of r) !! CONTACTS_FILE = fs w !! CONTACTS_FILE
  ∧ ∀ st' w', r = Ok st' w' →
      Scheduler.contacts_of st' = Scheduler.contacts_of st
      ∨ ∃ c t, Scheduler.contacts_of st !! i = Some c
               ∧ Scheduler.contacts_of st'
                 = <[i := Scheduler.mark_sent c t]> (Scheduler.contacts_of st).
Proof.
  cbn zeta. remember (Scheduler.campaign_iteration interval i st w) as r eqn:Hr.
  unfold Scheduler.campaign_iteration in Hr.
  destruct (Scheduler.contacts_of st !! i) as [c|] eqn:Hc.
  2:{ subst r. mrun. cbn. split; [done|]. intros st' w' ?; simplify_eq. by left. }
  pose proof (send_email_frame c w) as (Hfs & _). cbn in Hfs.
  specialize (Hfs CONTACTS_FILE ltac:(done)).
  unfold mbind at 1, M_bind at 1 in Hr.
  destruct (Scheduler.send_email c w) as [[|] w1|e w1]; cbn in Hfs.
  - pose proof (schedule_first_reminder_fs (Scheduler.mark_sent c (now w1)) (now w1)
                  interval w1) as Hsched.
    revert Hr. mrun.
    destruct (Scheduler.schedule_first_reminder _ _ _ w1) as [[] w2|e w2];
      cbn in Hsched; intros ->; cbn; rewrite ?Hsched, Hfs.
    + split; [done|]. intros st' w' ?; simplify_eq. right. by exists c, (now w1).
    + by split.
  - revert Hr. mrun. intros ->. cbn. rewrite Hfs. split; [done|].
    intros st' w' ?; simplify_eq. by left.
  - subst r. by split.
Qed.

(** So does the whole loop, and the cap survives it. *)
Lemma campaign_loop_within_cap interval pending st w :
  within_cap (Scheduler.contacts_of st) →
  let r := Scheduler.campaign_loop interval pending st w in
  fs (world_of r) !! CONTACTS_FILE = fs w !! CONTACTS_FILE
  ∧ ∀ st' w', r = Ok st' w' → within_cap (Scheduler.contacts_of st').
Proof.
  revert st w. induction pending as [|i rest IH]; intros st w Hcap; cbn zeta.
  { cbn. mrun. split; [done|]. intros st' w' ?. by simplify_eq. }
  remember (Scheduler.campaign_loop interval (i :: rest) st w) as r eqn:Hr.
  cbn in Hr. pose proof (campaign_iteration_frame interval i st w) as [Hfs Hst].
  cbn in Hfs, Hst. unfold mbind at 1, M_bind at 1 in Hr.
  destruct (Scheduler.campaign_iteration interval i st w) as [st1 w1|e w1];
    cbn in Hfs; [|subst r; by split].
  assert (within_cap (Scheduler.contacts_of st1)) as Hcap1.
  { destruct (Hst st1 w1 eq_refl) as [->|(c & t & Hc & ->)]; [done|].
    apply Forall_insert; [done|]. intros n Hn.
    eapply mark_sent_within_cap; [|done].
    eapply Forall_lookup_1 in Hcap; [|done]. apply Hcap. }
  destruct (IH st1 w1 Hcap1) as [Hfs' Hcap']. cbn zeta in Hfs', Hcap'.
  rewrite <- Hr in Hfs', Hcap'. rewrite Hfs', Hfs. by split.
Qed.

Lemma send_emails_to_all_within_cap interval w contacts text :
  store_is w CONTACTS_FILE contacts →
  pending_named contacts →
  within_cap contacts →
  fs (world_of (Scheduler.send_emails_to_all interval w)) !! CONTACTS_FILE = Some text →
  fs w !! CONTACTS_FILE = Some text
  ∨ ∃ contacts', text = json_dumps false contacts' ∧ within_cap contacts'.
Proof.
  intros Hstore _ Hcap.
  unfold Scheduler.send_emails_to_all.
  rewrite (bind_Ok _ _ _ _ _ (Scheduler_load_json_store _ _ _ Hstore)).
  destruct (Scheduler.pending_positions contacts 0) as [|i rest] eqn:Hpending.
  { cbn. by left. }
  rewrite <- Hpending. mrun.
  match goal with
  | |- context [Scheduler.campaign_loop ?m ?p ?st ?w0] =>
      pose proof (campaign_loop_within_cap m p st w0 Hcap) as [Hfs Hloop];
      destruct (Scheduler.campaign_loop m p st w0) as [st' w'|e w'] eqn:Hrun
  end; try rewrite Hrun in Hfs; cbn in Hfs.
  - unfold Scheduler.save_json. mrun. cbn. rewrite lookup_insert_eq.
    intros [= <-]. right. eexists. split; [done|]. by eapply Hloop.
  - cbn. rewrite Hfs. by left.
Qed.

End reminder_effect.

Section endpoint.
Context {env : Collaborators}.

Lemma app_save_json filename data w :
  app.save_json filename data w = Ok tt (saved filename data w).
Proof. done. Qed.

Lemma stored_saved filename data w :
  reloads data → stored (saved filename data w) filename = data.
Proof.
  intros [Hne Hloads]. unfold stored, saved. cbn. rewrite lookup_insert_eq.
  rewrite bool_decide_eq_false_2 by done. by rewrite Hloads.
Qed.

Lemma stored_saved_ne filename other data w :
  filename ≠ other → stored (saved filename data w) other = stored w other.
Proof. intros Hne. unfold stored, saved. cbn. by rewrite lookup_insert_ne. Qed.

Lemma update_loop_unknown contacts id status w :
  no_contact_with_id contacts (VInt id) →
  app.update_loop contacts id status w = Ok contacts w.
Proof.
  induction contacts as [|c rest IH]; intros Hall; [done|].
  apply Forall_cons in Hall as [(v & Hv & Hne) Hall].
  cbn [app.update_loop]. unfold getitem. rewrite Hv. mrun.
  rewrite decide_False by done. by rewrite IH.
Qed.

Lemma update_loop_first contacts id status w i c :
  first_with_id contacts (VInt id) i c →
  app.update_loop contacts id status w
  = Ok (<[i := answered c status (now w)]> contacts) w.
Proof.
  revert i. induction contacts as [|c0 rest IH]; intros i (Hi & Hid & Hbefore); [done|].
  cbn [app.update_loop]. unfold getitem. destruct i as [|i]; simpl in Hi, Hbefore.
  - injection Hi as ->. rewrite Hid. mrun. by rewrite decide_True by done.
  - apply Forall_cons in Hbefore as [(v & Hv & Hne) Hbefore].
    rewrite Hv. mrun. rewrite decide_False by done.
    by rewrite (IH i).
Qed.

Lemma update_contact_status_unknown id status w :
  no_contact_with_id (stored w CONTACTS_FILE) (VInt id) →
  app.update_contact_status id status w
  = Ok tt (saved CONTACTS_FILE (stored w CONTACTS_FILE) w).
Proof.
  intros Hnone. unfold app.update_contact_status.
  rewrite (bind_Ok _ _ _ _ _ (app_load_json_stored _ _)).
  by rewrite (bind_Ok _ _ _ _ _ (update_loop_unknown _ _ _ _ Hnone)).
Qed.

Lemma update_contact_status_first id status w i c :
  first_with_id (stored w CONTACTS_FILE) (VInt id) i c →
  app.update_contact_status id status w
  = Ok tt (saved CONTACTS_FILE
             (<[i := answered c status (now w)]> (stored w CONTACTS_FILE)) w).
Proof.
  intros Hfirst. unfold app.update_contact_status.
  rewrite (bind_Ok _ _ _ _ _ (app_load_json_stored _ _)).
  by rewrite (bind_Ok _ _ _ _ _ (update_loop_first _ _ _ _ _ _ Hfirst)).
Qed.

Lemma track_response_unknown id action w :
  no_contact_with_id (stored w CONTACTS_FILE) (VInt id) →
  app.track_response id action w = Ok tt w.
Proof.
  intros Hnone. unfold app.track_response.
  rewrite (bind_Ok _ _ _ _ _ (app_load_json_stored _ _)).
  rewrite (bind_Ok _ _ _ _ _ (app_load_json_stored _ _)).
  by rewrite (find_by_id_none _ _ 0 Hnone).
Qed.

Lemma track_response_first id action w i c name email :
  first_with_id (stored w CONTACTS_FILE) (VInt id) i c →
  c !! "name" = Some name → c !! "email" = Some email →
  app.track_response id action w
  = Ok tt (saved TRACKING_FILE
             (stored w TRACKING_FILE
              ++ [tracking_entry (VInt id) name email action (isoformat (now w))]) w).
Proof.
  intros Hfirst Hname Hemail. unfold app.track_response.
  rewrite (bind_Ok _ _ _ _ _ (app_load_json_stored _ _)).
  rewrite (bind_Ok _ _ _ _ _ (app_load_json_stored _ _)).
  rewrite (find_by_id_first _ _ _ _ 0 Hfirst). mrun.
  rewrite (first_with_id_nonempty _ _ _ _ Hfirst).
  unfold getitem. by rewrite Hname, Hemail.
Qed.

Lemma first_with_id_insert contacts id i c c' :
  first_with_id contacts id i c → c' !! "id" = Some id →
  first_with_id (<[i := c']> contacts) id i c'.
Proof.
  intros (Hi & Hid & Hbefore) Hid'. repeat split; [|done|].
  - apply list_lookup_insert_eq. by eapply lookup_lt_Some.
  - by rewrite take_insert_ge.
Qed.

End endpoint.

(** ** Loading a store (C2) *)

Section loading.
Context {env : Collaborators}.

Lemma load_json_missing w filename :
  fs w !! filename = None →
  Scheduler.load_json filename w = Ok [] w ∧ app.load_json filename w = Ok [] w.
Proof.
  intros Hnone. split; [by apply Scheduler_load_json_missing|].
  rewrite app_load_json_stored. unfold stored. by rewrite Hnone.
Qed.

Lemma app_load_json_tolerant w filename text :
  fs w !! filename = Some text →
  app.strip text = "" ∨ json_loads (app.strip text) = None →
  app.load_json filename w = Ok [] w.
Proof.
  intros Hfile Hbad. rewrite app_load_json_stored. unfold stored. rewrite Hfile.
  case_bool_decide; [done|]. destruct Hbad as [? | ->]; done.
Qed.

(** C2. A store file that exists but is empty or is not JSON: the
    response endpoint's loader returns the empty collection, while the
    campaign engine's loader, which catches [FileNotFoundError] only, lets
    the parser's [JSONDecodeError] escape. *)
Theorem load_json_malformed_store w filename text :
  fs w !! filename = Some text →
  json_loads text = None →
  app.strip text = "" ∨ json_loads (app.strip text) = None →
  Scheduler.load_json filename w = Raise JSONDecodeError w
  ∧ app.load_json filename w = Ok [] w.
Proof.
  intros Hfile Hparse Hbad. split.
  - by eapply Scheduler_load_json_malformed.
  - by eapply app_load_json_tolerant.
Qed.

End loading.

Lemma load_json_malformed_store_witness :
  let w := Demo.world (Some "") None None in
  Scheduler.load_json (env := Demo.env) CONTACTS_FILE w = Raise JSONDecodeError w
  ∧ app.load_json (env := Demo.env) CONTACTS_FILE w = Ok [] w.
Proof.
  apply (load_json_malformed_store (env := Demo.env) _ CONTACTS_FILE "").
  - by_evaluation.
  - by_evaluation.
  - left. by_evaluation.
Defined.

(** ** Saving then loading the contact store (C7) *)

Section round_trip.
Context {env : Collaborators}.

(** Saving then loading is a dump followed by a parse, whatever the file
    held before. *)
Lemma save_then_load w filename (data : list dict) :
  (Scheduler.save_json filename data ≫= λ _, Scheduler.load_json filename) w
  = let w' := set_writes (λ l, l ++ [filename])
                (set_fs <[filename := json_dumps false data]> w) in
    match json_loads (json_dumps false data) with
    | Some data' => Ok data' w'
    | None => Raise JSONDecodeError w'
    end.
Proof.
  unfold Scheduler.save_json. mrun.
  unfold Scheduler.load_json, try_except, read_file. mrun. cbn.
  rewrite lookup_insert_eq. by destruct (json_loads _).
Qed.

(** C7. Saving a contact collection and loading it again yields the
    collection, element for element and in the same order, for every
    collection that the JSON codec itself carries through a dump and a
    parse. *)
Theorem contacts_round_trip w (data : list dict) :
  json_loads (json_dumps false data) = Some data →
  (Scheduler.save_json CONTACTS_FILE data ≫= λ _, Scheduler.load_json CONTACTS_FILE) w
  = Ok data (set_writes (λ l, l ++ [CONTACTS_FILE])
               (set_fs <[CONTACTS_FILE := json_dumps false data]> w)).
Proof.
  intros Hcodec. rewrite save_then_load. cbv zeta. by rewrite Hcodec.
Qed.

End round_trip.

Lemma contacts_round_trip_witness :
  let w := Demo.world None None None in
  (Scheduler.save_json (env := Demo.env) CONTACTS_FILE [Demo.ann; Demo.bob; Demo.ann]
   ≫= λ _, Scheduler.load_json (env := Demo.env) CONTACTS_FILE) w
  = Ok [Demo.ann; Demo.bob; Demo.ann]
      (set_writes (λ l, l ++ [CONTACTS_FILE])
         (set_fs <[CONTACTS_FILE := Demo.dumps false [Demo.ann; Demo.bob; Demo.ann]]> w)).
Proof.
  apply (contacts_round_trip (env := Demo.env)). by_evaluation.
Defined.

(** ** A reminder for a resolved or unknown contact (C5) *)

Section reminder_noop.
Context {env : Collaborators}.

(** C5. Firing the reminder callback for an id that no contact has, or
    for a contact whose status is anything but pending (interested and
    not_interested in particular), changes neither a file, so neither the
    contact collection nor the tracking log, nor the timer's jobs, nor
    the outbox; it prints one line. *)
Theorem reminder_for_resolved_is_noop w id interval contacts :
  store_is w CONTACTS_FILE contacts →
  no_contact_with_id contacts id
  ∨ (∃ i c, first_with_id contacts id i c
            ∧ dict_get c "status" VNone ≠ VStr "pending") →
  ∃ w', Scheduler.send_reminder_email id interval w = Ok tt w'
        ∧ fs w' = fs w ∧ writes w' = writes w
        ∧ reminder_scheduler w' = reminder_scheduler w
        ∧ outbox w' = outbox w.
Proof.
  intros Hstore [Hnone|(i & c & Hfirst & Hstatus)]; eexists; split.
  - by eapply send_reminder_email_unknown.
  - done.
  - eapply send_reminder_email_resolved; [done..|].
    by apply bool_decide_eq_false.
  - done.
Qed.

End reminder_noop.

Lemma reminder_for_resolved_is_noop_witness :
  let w := Demo.world_with [Demo.ann; Demo.bob] [] (Some []) in
  ∃ w', Scheduler.send_reminder_email (env := Demo.env) (VInt 2) None w = Ok tt w'
        ∧ fs w' = fs w ∧ writes w' = writes w
        ∧ reminder_scheduler w' = reminder_scheduler w
        ∧ outbox w' = outbox w.
Proof.
  intros w.
  apply (reminder_for_resolved_is_noop (env := Demo.env) w (VInt 2) None
           [Demo.ann; Demo.bob]).
  - unfold store_is.
    assert (fs w !! CONTACTS_FILE = Some (Demo.dumps false [Demo.ann; Demo.bob])) as ->
      by by_evaluation.
    by_evaluation.
  - right. exists 1, Demo.bob. split.
    + split; [reflexivity|]. split; [by_evaluation|].
      apply Forall_cons. split; [|constructor].
      exists (VInt 1). split; [by_evaluation|discriminate].
    + by_evaluation.
Defined.

(** ** The initial send never raises (C8) *)

Section initial_send.
Context {env : Collaborators}.

(** C8. [send_email] reports failure by its return value: for every
    record, an error of the transport is caught and [False] is returned,
    and [True] is returned only after the transport has accepted the
    message; for a record that carries its name (section 3 of the spec)
    [send_email] returns whatever happens, and never raises. *)
Theorem send_email_never_raises contact w :
  (is_Some (contact !! "name") → ∃ sent w', Scheduler.send_email contact w = Ok sent w')
  ∧ (∀ id name email message e,
       Scheduler.compose contact Scheduler.initial_subject None w
         = Ok (id, name, email, message) w →
       smtp_submit (now w) message = Some e →
       Scheduler.send_email contact w
       = Ok false (set_stdout (λ l, l ++ [failure_line name e]) w))
  ∧ (∀ w', Scheduler.send_email contact w = Ok true w' →
           ∃ message, smtp_submit (now w) message = None
                      ∧ outbox w' = outbox w ++ [message]).
Proof.
  split; [by apply send_email_total|]. split.
  - intros id name email message e. apply send_email_transport_error.
  - intros w' (id & name & email & message & tracking & _ & Hsmtp & _ & ->)%send_email_true.
    by exists message.
Qed.

End initial_send.

Lemma send_email_never_raises_witness :
  let w := Demo.world_with [Demo.cy] [] None in
  (∃ sent w', Scheduler.send_email (env := Demo.env) Demo.cy w = Ok sent w')
  ∧ Scheduler.send_email (env := Demo.env) Demo.cy w
    = Ok false (set_stdout
                  (λ l, l ++ [failure_line (env := Demo.env) (VStr "Cy")
                                (SMTPException "recipient refused")]) w).
Proof.
  intros w.
  destruct (send_email_never_raises (env := Demo.env) Demo.cy w)
    as (Htotal & Hrefused & _).
  split.
  - apply Htotal. exists (VStr "Cy"). by_evaluation.
  - apply (Hrefused (VInt 3) (VStr "Cy") (VStr "cy@example.com")
             {| msg_subject := Scheduler.initial_subject (env := Demo.env);
                msg_from := "Sales <sales@example.com>";
                msg_to := VStr "cy@example.com";
                msg_html := "Hello Cy" |}); by_evaluation.
Defined.

(** A record without a name is outside the data model; for it the
    handler itself raises. *)
Example send_email_nameless :
  let contact : dict := <["id" := VInt 9]> (<["email" := VStr "x@example.com"]> ∅) in
  let w := Demo.world_with [contact] [] None in
  Scheduler.send_email (env := Demo.env) contact w = Raise (KeyError "name") w.
Proof. cbv zeta. by_evaluation. Qed.

(** ** A click on a link (C4, C10) *)

Section clicks.
Context {env : Collaborators}.

(** C4. [GET /interested/{id}] for a contact with that id (pending or
    not) that has its name and e-mail: the contact store is rewritten
    with the status of that contact, the first with the id, set to
    interested and its [updated_at] stamped, every other record as it
    was; the tracking log is rewritten with exactly one more event: five
    fields, the contact's id, name and e-mail, the action "interested"
    and the time of the click; the answer is a redirect to the configured
    link. *)
Theorem interested_marks_tracks_redirects w id i c name email :
  first_with_id (stored w CONTACTS_FILE) (VInt id) i c →
  c !! "name" = Some name →
  c !! "email" = Some email →
  reloads (<[i := answered c "interested" (now w)]> (stored w CONTACTS_FILE)) →
  ∃ w',
    app.interested id w = Ok (app.RedirectResponse CALENDLY_LINK) w'
    ∧ app.status_code (app.RedirectResponse CALENDLY_LINK) = 307%Z
    ∧ fs w' !! CONTACTS_FILE
      = Some (json_dumps true
                (<[i := answered c "interested" (now w)]> (stored w CONTACTS_FILE)))
    ∧ answered c "interested" (now w) !! "status" = Some (VStr "interested")
    ∧ fs w' !! TRACKING_FILE
      = Some (json_dumps true
                (stored w TRACKING_FILE
                 ++ [tracking_entry (VInt id) name email "interested"
                       (isoformat (now w))]))
    ∧ (∃ event,
         fs w' !! TRACKING_FILE
         = Some (json_dumps true (stored w TRACKING_FILE ++ [event]))
         ∧ event_of event (VInt id) name email "interested" (isoformat (now w)))
    ∧ writes w' = writes w ++ [CONTACTS_FILE; TRACKING_FILE].
Proof.
  intros Hfirst Hname Hemail Hreloads.
  set (c' := answered c "interested" (now w)).
  set (contacts' := <[i := c']> (stored w CONTACTS_FILE)).
  set (w1 := saved CONTACTS_FILE contacts' w).
  assert (first_with_id (stored w1 CONTACTS_FILE) (VInt id) i c') as Hfirst'.
  { unfold w1. rewrite stored_saved by done. eapply first_with_id_insert; [exact Hfirst|].
    unfold c', answered. rewrite !lookup_insert_ne by done. apply Hfirst. }
  assert (c' !! "name" = Some name ∧ c' !! "email" = Some email) as [Hname' Hemail'].
  { unfold c', answered. by rewrite !lookup_insert_ne by done. }
  eexists. split.
  - unfold app.interested.
    rewrite (bind_Ok _ _ _ _ _ (update_contact_status_first _ _ _ _ _ Hfirst)).
    fold c' contacts' w1.
    rewrite (bind_Ok _ _ _ _ _
               (track_response_first _ _ _ _ _ _ _ Hfirst' Hname' Hemail')).
    reflexivity.
  - split; [done|]. unfold w1, saved. cbn.
    pose proof tracking_is_not_contacts as Hfiles.
    rewrite lookup_insert_ne by done. rewrite !lookup_insert_eq.
    split; [done|]. split; [unfold c', answered; rewrite lookup_insert_ne by done;
                     by rewrite lookup_insert_eq|].
    assert (stored (saved CONTACTS_FILE contacts' w) TRACKING_FILE
            = stored w TRACKING_FILE) as Hlog.
    { unfold stored, saved. cbn. by rewrite lookup_insert_ne. }
    fold (saved CONTACTS_FILE contacts' w). rewrite Hlog.
    split; [done|]. split; [|by rewrite <- app_assoc].
    eexists. split; [done|]. apply tracking_entry_event.
Qed.

(** C10. A click for an id that no contact has: both endpoints answer
    as for a known id (a redirect, a page with status 200), the contact
    store is rewritten with the collection that was read, and no other
    file is written, so the tracking log gets no event. *)
Theorem unknown_id_click_succeeds w id :
  no_contact_with_id (stored w CONTACTS_FILE) (VInt id) →
  reloads (stored w CONTACTS_FILE) →
  let w' := saved CONTACTS_FILE (stored w CONTACTS_FILE) w in
  app.interested id w = Ok (app.RedirectResponse CALENDLY_LINK) w'
  ∧ app.not_interested id w = Ok (app.HTMLResponse app.html_content) w'
  ∧ app.status_code (app.HTMLResponse app.html_content) = 200%Z
  ∧ stored w' CONTACTS_FILE = stored w CONTACTS_FILE
  ∧ fs w' !! TRACKING_FILE = fs w !! TRACKING_FILE
  ∧ writes w' = writes w ++ [CONTACTS_FILE].
Proof.
  intros Hnone Hreloads w'.
  assert (stored w' CONTACTS_FILE = stored w CONTACTS_FILE) as Hsame
    by (by apply stored_saved).
  assert (∀ action, app.track_response id action w' = Ok tt w') as Htrack.
  { intros action. apply track_response_unknown. by rewrite Hsame. }
  repeat split; try done.
  - unfold app.interested.
    rewrite (bind_Ok _ _ _ _ _ (update_contact_status_unknown _ _ _ Hnone)).
    fold w'. by rewrite (bind_Ok _ _ _ _ _ (Htrack _)).
  - unfold app.not_interested.
    rewrite (bind_Ok _ _ _ _ _ (update_contact_status_unknown _ _ _ Hnone)).
    fold w'. by rewrite (bind_Ok _ _ _ _ _ (Htrack _)).
  - unfold w', saved. cbn. pose proof tracking_is_not_contacts.
    by rewrite lookup_insert_ne.
Qed.

End clicks.

Lemma interested_marks_tracks_redirects_witness :
  let w := Demo.world_with [Demo.ann; Demo.dee] [] None in
  ∃ w',
    app.interested (env := Demo.env) 42 w = Ok (app.RedirectResponse "https://calendly.com/demo") w'
    ∧ stored (env := Demo.env) w' CONTACTS_FILE
      = [Demo.ann; <["updated_at" := VStr "1000"]> (<["status" := VStr "interested"]> Demo.dee)]
    ∧ stored (env := Demo.env) w' TRACKING_FILE
      = [list_to_map [("contact_id", VInt 42); ("contact_name", VStr "Dee");
                      ("contact_email", VStr "dee@example.com");
                      ("action", VStr "interested"); ("timestamp", VStr "1000")]].
Proof.
  intros w.
  destruct (interested_marks_tracks_redirects (env := Demo.env) w 42 1 Demo.dee
              (VStr "Dee") (VStr "dee@example.com"))
    as (w' & Hrun & _ & Hcontacts & _ & Htracking & _).
  - split; [by_evaluation|]. split; [by_evaluation|].
    apply Forall_cons. split; [|constructor].
    exists (VInt 1). split; [by_evaluation|discriminate].
  - by_evaluation.
  - by_evaluation.
  - split; by_evaluation.
  - exists w'. split; [exact Hrun|]. unfold stored. rewrite Hcontacts, Htracking.
    split; by_evaluation.
Defined.

Lemma unknown_id_click_succeeds_witness :
  let w := Demo.world_with [Demo.ann; Demo.bob] [] None in
  let w' := saved (env := Demo.env) CONTACTS_FILE [Demo.ann; Demo.bob] w in
  app.interested (env := Demo.env) 7 w = Ok (app.RedirectResponse "https://calendly.com/demo") w'
  ∧ app.not_interested (env := Demo.env) 7 w = Ok (app.HTMLResponse app.html_content) w'
  ∧ stored (env := Demo.env) w' CONTACTS_FILE = [Demo.ann; Demo.bob]
  ∧ fs w' !! TRACKING_FILE = fs w !! TRACKING_FILE.
Proof.
  intros w.
  assert (stored (env := Demo.env) w CONTACTS_FILE = [Demo.ann; Demo.bob]) as Hstored
    by by_evaluation.
  destruct (unknown_id_click_succeeds (env := Demo.env) w 7)
    as (Hyes & Hno & _ & Hsame & Htracking & _).
  - rewrite Hstored. repeat (apply Forall_cons; split); [| |constructor].
    + exists (VInt 1). split; [by_evaluation|discriminate].
    + exists (VInt 2). split; [by_evaluation|discriminate].
  - rewrite Hstored. split; by_evaluation.
  - rewrite Hstored in Hyes, Hno, Hsame, Htracking. cbv zeta. by repeat split.
Defined.

(** ** Text and numbers *)

Example strip_blank : app.strip (" " +:+ newline +:+ "  ") = "".
Proof. reflexivity. Qed.

Example strip_text : app.strip ("  [ ]" +:+ newline) = "[ ]".
Proof. reflexivity. Qed.

Example format_1f_examples :
  app.format_1f (app.float_of_count 1 / app.float_of_count 3 * app.float_of_count 100)%float
  = "33.3"
  ∧ app.format_1f (app.float_of_count 1 / app.float_of_count 2000
                   * app.float_of_count 100)%float = "0.1"
  ∧ app.format_1f (app.float_of_count 1 / app.float_of_count 4)%float = "0.2"
  ∧ app.format_1f (app.float_of_count 3 / app.float_of_count 4)%float = "0.8"
  ∧ app.format_1f (app.float_of_count 2 / app.float_of_count 2
                   * app.float_of_count 100)%float = "100.0".
Proof. vm_compute. done. Qed.

(** ** Statistics (C9) *)

Lemma count_status_spec contacts status :
  Forall (λ c, is_Some (c !! "status")) contacts →
  app.count_status contacts status = inr (with_status contacts status).
Proof.
  unfold with_status. induction contacts as [|c rest IH]; intros Hall; [done|].
  apply Forall_cons in Hall as [[v Hv] Hall]. simpl. rewrite Hv, (IH Hall).
  rewrite filter_cons. destruct (decide (v = VStr status)) as [->|Hne].
  - by rewrite decide_True.
  - rewrite decide_False; [done|]. congruence.
Qed.





Lemma last_ten_short (tracking : list dict) :
  (length tracking ≤ 10)%nat → app.last_ten tracking = tracking.
Proof. intros Hlen. unfold app.last_ten. by replace (length tracking - 10) with 0 by lia. Qed.

Section stats.
Context {env : Collaborators}.


End stats.


(** ** The campaign run (C3, C6) *)


Section campaign_claims.
Context {env : Collaborators}.



End campaign_claims.










(** The run on the example collection: Ann is sent to, Cy is refused and
    stays as loaded, Bob is not pending. *)
Example campaign_run_outcomes :
  campaign_outcomes (env := Demo.env) 1 (Scheduler.pending_positions campaign_contacts 0)
    (campaign_start campaign_contacts)
    (after_banner (env := Demo.env) None 2 campaign_world)
  = [(0, true); (2, false)]
  ∧ writes (world_of (Scheduler.send_emails_to_all (env := Demo.env) None campaign_world))
    = [TRACKING_FILE; CONTACTS_FILE]
  ∧ Demo.loads <$> fs (world_of (Scheduler.send_emails_to_all (env := Demo.env) None
                                   campaign_world)) !! CONTACTS_FILE
    = Some (Some [Scheduler.mark_sent (env := Demo.env) Demo.ann 1000; Demo.bob; Demo.cy]).
Proof. split; [|split]; by_evaluation. Qed.



(** Why the timer must be free: the scheduler refuses a job under an id
    that it holds, the campaign loop does not catch the refusal, and the
    run ends in it after the message went out, with the contact store
    unwritten. *)
Example campaign_conflicting_job_raises :
  let held := {| job_id := "reminder_1_1"; run_date := 2000; job_args := (VInt 1, 1%Z) |} in
  let w := Demo.world_with [Demo.ann] [] (Some [held]) in
  let r := Scheduler.send_emails_to_all (env := Demo.env) None w in
  (∃ w', r = Raise (ConflictingIdError "reminder_1_1") w')
  ∧ length (outbox (world_of r)) = 1
  ∧ writes (world_of r) = [TRACKING_FILE]
  ∧ fs (world_of r) !! CONTACTS_FILE = fs w !! CONTACTS_FILE.
Proof.
  cbv zeta. split; [|repeat split; by_evaluation].
  eexists (world_of (Scheduler.send_emails_to_all (env := Demo.env) None
                       (Demo.world_with [Demo.ann] []
                          (Some [{| job_id := "reminder_1_1"; run_date := 2000;
                                    job_args := (VInt 1, 1%Z) |}])))).
  by_evaluation.
Qed.

(** ** The reminder cap (C1) *)

Section cap.
Context {env : Collaborators}.

(** C1, where the code departs from it.  The reminder that brings a
    contact's [reminder_count] to the cap is counted and persisted and
    schedules no further job, but it leaves the contact pending: the
    branch that marks a contact not_interested runs only when a later
    firing finds the count at the cap, and this firing has just declined
    to schedule one. *)
Theorem final_reminder_leaves_contact_pending
    w id interval contacts i c cid name email message tracking :
  store_is w CONTACTS_FILE contacts →
  first_with_id contacts id i c →
  Scheduler.is_pending c = true →
  dict_get c "reminder_count" (VInt 0) = VInt (Scheduler.MAX_REMINDERS - 1) →
  Scheduler.compose c Scheduler.reminder_subject (Some Scheduler.MAX_REMINDERS) w
    = Ok (cid, name, email, message) w →
  smtp_submit (now w) message = None →
  store_is w TRACKING_FILE tracking →
  ∃ w',
    Scheduler.send_reminder_email id interval w = Ok tt w'
    ∧ fs w' !! CONTACTS_FILE
      = Some (json_dumps false
                (<[i := reminded c Scheduler.MAX_REMINDERS (now w)]> contacts))
    ∧ reminded c Scheduler.MAX_REMINDERS (now w) !! "reminder_count"
      = Some (VInt Scheduler.MAX_REMINDERS)
    ∧ Scheduler.is_pending (reminded c Scheduler.MAX_REMINDERS (now w)) = true
    ∧ reminder_scheduler w' = reminder_scheduler w.
Proof.
  intros Hstore Hfirst Hpending Hcount Hcompose Hsmtp Htracking.
  destruct (send_reminder_email_sent w id interval contacts i c
              (Scheduler.MAX_REMINDERS - 1) cid name email message tracking)
    as (w' & Hrun & Hfs & _ & _ & Hsched); try done.
  exists w'. split; [done|]. rewrite Hfs, Hsched. split; [|split; [|split]].
  - by rewrite lookup_insert_eq.
  - unfold reminded. rewrite !lookup_insert_ne by done. by rewrite lookup_insert_eq.
  - rewrite <- Hpending. unfold Scheduler.is_pending, dict_get, reminded.
    by rewrite !lookup_insert_ne by done.
  - done.
Qed.

End cap.

Lemma final_reminder_leaves_contact_pending_witness :
  let w := Demo.world_with [twice_reminded] [] (Some []) in
  ∃ w',
    Scheduler.send_reminder_email (env := Demo.env) (VInt 1) None w = Ok tt w'
    ∧ fs w' !! CONTACTS_FILE
      = Some (Demo.dumps false
                [reminded (env := Demo.env) twice_reminded 3 1000])
    ∧ reminded (env := Demo.env) twice_reminded 3 1000 !! "reminder_count"
      = Some (VInt 3)
    ∧ Scheduler.is_pending (reminded (env := Demo.env) twice_reminded 3 1000) = true
    ∧ reminder_scheduler w' = Some [].
Proof.
  intros w.
  apply (final_reminder_leaves_contact_pending (env := Demo.env) w (VInt 1) None
           [twice_reminded] 0 twice_reminded (VInt 1) (VStr "Ann")
           (VStr "ann@example.com") third_reminder []).
  - unfold store_is.
    assert (fs w !! CONTACTS_FILE = Some (Demo.dumps false [twice_reminded])) as ->
      by by_evaluation.
    by_evaluation.
  - split; [reflexivity|]. split; [by_evaluation|constructor].
  - by_evaluation.
  - by_evaluation.
  - by_evaluation.
  - by_evaluation.
  - unfold store_is.
    assert (fs w !! TRACKING_FILE = Some (Demo.dumps false [])) as -> by by_evaluation.
    by_evaluation.
Defined.

(** The whole chain on one pending contact: the campaign, then the timer
    run until it is idle.  Three reminders are sent, the count stands at
    the cap, no job is left, and the contact is still pending. *)
Example reminder_chain_ends_pending :
  let w := world_of ((Scheduler.send_now (env := Demo.env) None
                      ≫= λ _, Scheduler.run_timer (env := Demo.env) 10)
                       (Demo.world_with [Demo.ann] [] None)) in
  let c := reminded (env := Demo.env)
             (reminded (env := Demo.env)
                (reminded (env := Demo.env)
                   (Scheduler.mark_sent (env := Demo.env) Demo.ann 1000) 1 1060)
                2 1120) 3 1180 in
  reminder_scheduler w = Some []
  ∧ length (outbox w) = 4
  ∧ Demo.loads <$> fs w !! CONTACTS_FILE = Some (Some [c])
  ∧ c !! "status" = Some (VStr "pending")
  ∧ c !! "reminder_count" = Some (VInt 3).
Proof. cbv zeta. repeat split; by_evaluation. Qed.

(** With the store as the chain left it, a firing of the callback would
    resolve the contact (step 2 of the routine); no job exists to fire it. *)
Example cap_branch_resolves :
  let w := Demo.world_with [reminded (env := Demo.env) twice_reminded 3 1000] []
             (Some []) in
  let w' := world_of (Scheduler.send_reminder_email (env := Demo.env) (VInt 1) None w) in
  Demo.loads <$> fs w' !! CONTACTS_FILE
  = Some (Some [resolved (env := Demo.env)
                  (reminded (env := Demo.env) twice_reminded 3 1000) 1000])
  ∧ reminder_scheduler w' = Some []
  ∧ writes w' = [CONTACTS_FILE].
Proof. cbv zeta. repeat split; by_evaluation. Qed.

(** ** The codec reads back what it prints *)

Section codec.
Abbreviation text := String.list_ascii_of_string.

Lemma parse_string_escape s acc rest :
  Demo.parse_string (Demo.escape s ++ Demo.dquote :: rest) acc
  = Some (String.string_of_list_ascii (rev acc ++ s), rest).
Proof.
  revert acc. induction s as [|a s IH]; intros acc.
  - simpl. by rewrite app_nil_r.
  - cbn [Demo.escape]. destruct (decide (a = Demo.dquote)) as [->|Hq].
    + simpl. rewrite IH. simpl. by rewrite <- app_assoc.
    + destruct (decide (a = Demo.backslash)) as [->|Hb].
      * simpl. rewrite IH. simpl. by rewrite <- app_assoc.
      * cbn [app Demo.parse_string]. rewrite decide_False by done.
        rewrite decide_False by done.
        rewrite IH. simpl. by rewrite <- app_assoc.
Qed.

Lemma parse_string_put s rest :
  Demo.parse_string (Demo.escape (text s) ++ Demo.dquote :: rest) [] = Some (s, rest).
Proof.
  rewrite parse_string_escape. simpl.
  by rewrite String.string_of_list_ascii_of_string.
Qed.

Lemma ends_value_no_digit rest : ends_value rest → ∃ a r, rest = a :: r ∧ Demo.digit a = None.
Proof. intros (a & r & -> & [-> | ->]); by eexists _, _. Qed.

Lemma parse_uint_put d rest :
  (∃ a r, rest = a :: r ∧ Demo.digit a = None) →
  Demo.parse_uint (Demo.put_uint d ++ rest) = (d, rest).
Proof.
  intros (a & r & -> & Ha).
  induction d; simpl; rewrite ?IHd; try done.
  by rewrite Ha.
Qed.

Lemma put_uint_head d :
  d ≠ Decimal.Nil → ∃ a r, Demo.put_uint d = a :: r ∧ is_Some (Demo.digit a) ∧ Demo.is_ws a = false.
Proof. destruct d; intros Hd; [done|..]; eexists _, _; by split. Qed.

Lemma to_int_nonnil z d :
  Z.to_int z = Decimal.Pos d ∨ Z.to_int z = Decimal.Neg d → d ≠ Decimal.Nil.
Proof.
  intros Hd ->. destruct z as [|p|p]; simpl in Hd; destruct Hd as [Hd|Hd]; try done;
    injection Hd as Hd; by apply DecimalPos.Unsigned.to_uint_nonnil in Hd.
Qed.

Lemma parse_number_unsigned s a r :
  s = a :: r → is_Some (Demo.digit a) →
  Demo.parse_number s = match Demo.parse_uint s with
                   | (Decimal.Nil, _) => None
                   | (d, r) => Some (Z.of_int (Decimal.Pos d), r)
                   end.
Proof.
  intros -> Ha. unfold Demo.parse_number.
  destruct (decide (a = "-"%char)) as [->|_]; [by destruct Ha|done].
Qed.

Lemma parse_number_put z rest :
  ends_value rest → Demo.parse_number (Demo.put_int z ++ rest) = Some (z, rest).
Proof.
  intros Hrest%ends_value_no_digit. unfold Demo.put_int.
  pose proof (DecimalZ.of_to z) as Hz.
  destruct (Z.to_int z) as [d|d] eqn:Hd.
  - assert (d ≠ Decimal.Nil) as Hnil by (by eapply to_int_nonnil; left).
    destruct (put_uint_head d Hnil) as (a & r & Hput & Ha & _).
    rewrite (parse_number_unsigned _ a (r ++ rest)); [|by rewrite Hput|done].
    rewrite parse_uint_put by done.
    destruct d; try done; by rewrite Hz.
  - assert (d ≠ Decimal.Nil) as Hnil by (by eapply to_int_nonnil; right).
    change (Demo.parse_number (("-"%char :: Demo.put_uint d) ++ rest))
      with (match Demo.parse_uint (Demo.put_uint d ++ rest) with
            | (Decimal.Nil, _) => None
            | (d, r) => Some (Z.of_int (Decimal.Neg d), r)
            end).
    rewrite parse_uint_put by done.
    destruct d; try done; by rewrite Hz.
Qed.

Lemma parse_value_put v rest :
  ends_value rest → Demo.parse_value (Demo.put_value v ++ rest) = Some (v, rest).
Proof.
  intros Hrest. destruct v as [|z|s].
  - done.
  - pose proof (parse_number_put z rest Hrest) as Hnum.
    unfold Demo.put_value, Demo.put_int in *.
    destruct (Z.to_int z) as [d|d].
    + destruct d; simpl in *; try (by rewrite Hnum).
      destruct Hrest as (a & r & -> & [-> | ->]); done.
    + simpl in *. by rewrite Hnum.
  - unfold Demo.put_value, Demo.put_string. simpl.
    rewrite <- app_assoc. simpl. by rewrite parse_string_put.
Qed.

Lemma put_value_head v rest :
  ∃ a r, Demo.put_value v ++ rest = a :: r ∧ Demo.is_ws a = false.
Proof.
  destruct v as [|z|s]; [by eexists _, _|..|by eexists _, _].
  unfold Demo.put_value, Demo.put_int.
  destruct (Z.to_int z) as [d|d] eqn:Hd; [|by eexists _, _].
  assert (d ≠ Decimal.Nil) as Hnil by (by eapply to_int_nonnil; left).
  destruct (put_uint_head d Hnil) as (a & r & -> & _ & Hws). by eexists _, _.
Qed.

Lemma skip_ws_head a r : Demo.is_ws a = false → Demo.skip_ws (a :: r) = a :: r.
Proof. intros Ha. simpl. by rewrite Ha. Qed.

Lemma put_items_length {A} (put : A → Demo.chars) (items : list A) close :
  (length items ≤ length (Demo.put_items put items close))%nat.
Proof.
  induction items as [|x [|y items] IH]; simpl in *; [lia| |].
  - rewrite length_app. simpl. lia.
  - rewrite length_app. simpl. lia.
Qed.

Lemma collect_map_to_list (d : dict) : collect ∅ (map_to_list d) = d.
Proof.
  assert (∀ (l : list (string * value)) acc,
             NoDup l.*1 → collect acc l = list_to_map l ∪ acc) as Hcollect.
  { induction l as [|[k v] l IH]; intros acc Hnodup.
    - simpl. by rewrite (left_id_L ∅ (∪)).
    - apply NoDup_cons in Hnodup as [Hk Hnodup]. simpl. rewrite IH by done.
      rewrite <- insert_union_l. symmetry. apply insert_union_r.
      by apply not_elem_of_list_to_map_1. }
  rewrite Hcollect by apply NoDup_fst_map_to_list.
  rewrite (right_id_L ∅ (∪)). apply list_to_map_to_list.
Qed.

Lemma parse_member kv rest :
  ends_value rest →
  ∀ s, Demo.skip_ws s = Demo.put_member kv ++ rest →
  ∃ r, Demo.skip_ws s = Demo.dquote :: r
       ∧ Demo.parse_string r [] = Some (kv.1, ":"%char :: " "%char :: Demo.put_value kv.2 ++ rest)
       ∧ Demo.parse_value (Demo.skip_ws (Demo.put_value kv.2 ++ rest)) = Some (kv.2, rest)
       ∧ Demo.skip_ws rest = rest.
Proof.
  intros Hrest s Hs. destruct kv as [k v]. unfold Demo.put_member, Demo.put_string in Hs.
  simpl in Hs. rewrite <- !app_assoc in Hs. simpl in Hs. cbn [fst snd].
  eexists. split; [exact Hs|]. split; [apply parse_string_put|]. split.
  - destruct (put_value_head v rest) as (a & r & Hv & Hws).
    rewrite Hv, (skip_ws_head _ _ Hws), <- Hv. by apply parse_value_put.
  - destruct Hrest as (a & r & -> & [-> | ->]); done.
Qed.

Lemma parse_members_put members fuel s acc rest :
  members ≠ [] → (length members ≤ fuel)%nat →
  Demo.skip_ws s = Demo.put_items Demo.put_member members "}"%char ++ rest →
  Demo.parse_members fuel s acc = Some (collect acc members, rest).
Proof.
  revert fuel s acc.
  induction members as [|kv [|kv' members] IH]; intros fuel s acc Hne Hfuel Hs; [done|..].
  - destruct fuel as [|fuel]; [simpl in Hfuel; lia|].
    simpl in Hs. rewrite <- app_assoc in Hs.
    destruct (parse_member kv ("}"%char :: rest)) with (s := s)
      as (r & Hs' & Hkey & Hval & Hskip); [by eexists _, _; split; [|right]|done|].
    cbn [Demo.parse_members]. rewrite Hs'. rewrite decide_True by done.
    rewrite Hkey. simpl. rewrite Hval. simpl. done.
  - destruct fuel as [|fuel]; [simpl in Hfuel; lia|].
    cbn [Demo.put_items] in Hs. rewrite <- !app_assoc in Hs.
    set (tail := Demo.put_items Demo.put_member (kv' :: members) "}"%char ++ rest) in *.
    destruct (parse_member kv (","%char :: " "%char :: tail)) with (s := s)
      as (r & Hs' & Hkey & Hval & Hskip); [by eexists _, _; split; [|left]|done|].
    cbn [Demo.parse_members]. rewrite Hs'. rewrite decide_True by done.
    rewrite Hkey. simpl. rewrite Hval. simpl.
    apply IH; [done|simpl in *; lia|].
    unfold tail. destruct kv' as [k' v']. destruct members; done.
Qed.

Lemma parse_object_body (rest0 r : Demo.chars) :
  rest0 = Demo.dquote :: r →
  match Demo.skip_ws rest0 with
  | "}"%char :: r' => Some (∅, r')
  | _ => Demo.parse_members (length rest0) rest0 ∅
  end = Demo.parse_members (length rest0) rest0 ∅.
Proof. by intros ->. Qed.

Lemma parse_object_put d rest s :
  Demo.skip_ws s = Demo.put_object d ++ rest → Demo.parse_object s = Some (d, rest).
Proof.
  intros Hs. unfold Demo.parse_object. rewrite Hs. unfold Demo.put_object. cbn [app].
  destruct (map_to_list d) as [|kv members] eqn:Hd.
  - apply map_to_list_empty_iff in Hd as ->. done.
  - assert (∃ r, Demo.put_items Demo.put_member (kv :: members) "}"%char ++ rest = Demo.dquote :: r)
      as [r Hr] by (destruct kv, members; by eexists).
    rewrite (parse_object_body _ _ Hr).
    rewrite (parse_members_put (kv :: members) _ _ ∅ rest); try done.
    + by rewrite <- Hd, collect_map_to_list.
    + rewrite length_app. pose proof (put_items_length Demo.put_member (kv :: members) "}"%char).
      lia.
    + by rewrite Hr.
Qed.

Lemma put_object_head d rest : ∃ r, Demo.put_object d ++ rest = "{"%char :: r.
Proof. by eexists. Qed.

Lemma parse_elements_put data fuel s acc rest :
  data ≠ [] → (length data ≤ fuel)%nat →
  Demo.skip_ws s = Demo.put_items Demo.put_object data "]"%char ++ rest →
  Demo.parse_elements fuel s acc = Some (rev acc ++ data, rest).
Proof.
  revert fuel s acc.
  induction data as [|d [|d' data] IH]; intros fuel s acc Hne Hfuel Hs; [done|..].
  - destruct fuel as [|fuel]; [simpl in Hfuel; lia|].
    simpl in Hs. rewrite <- app_assoc in Hs.
    cbn [Demo.parse_elements]. rewrite (parse_object_put d _ _ Hs). simpl. done.
  - destruct fuel as [|fuel]; [simpl in Hfuel; lia|].
    cbn [Demo.put_items] in Hs. rewrite <- !app_assoc in Hs.
    cbn [Demo.parse_elements]. rewrite (parse_object_put d _ _ Hs). simpl.
    rewrite (IH fuel _ (d :: acc)); [|done|simpl in *; lia|].
    + simpl. by rewrite <- app_assoc.
    + destruct data; done.
Qed.

(** Whatever the flag, parsing what was printed gives the collection back. *)
Lemma loads_body (rest0 r : Demo.chars) :
  rest0 = "{"%char :: r →
  match Demo.skip_ws rest0 with
  | "]"%char :: r' => Some ([], r')
  | _ => Demo.parse_elements (length rest0) rest0 []
  end = Demo.parse_elements (length rest0) rest0 [].
Proof. by intros ->. Qed.

(** Whatever the flag, parsing what was printed gives the collection back. *)
Lemma loads_dumps ensure_ascii data : Demo.loads (Demo.dumps ensure_ascii data) = Some data.
Proof.
  unfold Demo.loads, Demo.dumps. rewrite String.list_ascii_of_string_of_list_ascii.
  unfold Demo.put_array.
  change (Demo.skip_ws ("["%char :: ?l)) with ("["%char :: l). cbv iota.
  destruct data as [|d data].
  - done.
  - assert (∃ r, Demo.put_items Demo.put_object (d :: data) "]"%char = "{"%char :: r) as [r Hr]
      by (destruct data; by eexists).
    rewrite (loads_body _ _ Hr).
    rewrite (parse_elements_put (d :: data) _ _ [] []); try done.
    + pose proof (put_items_length Demo.put_object (d :: data) "]"%char). lia.
    + by rewrite app_nil_r, Hr.
Qed.

End codec.

(** With this codec the contact store round-trips for every collection. *)
Example contacts_round_trip_concrete w (data : list dict) :
  (Scheduler.save_json (env := Demo.env) CONTACTS_FILE data
   ≫= λ _, Scheduler.load_json (env := Demo.env) CONTACTS_FILE) w
  = Ok data (set_writes (λ l, l ++ [CONTACTS_FILE])
               (set_fs <[CONTACTS_FILE := Demo.dumps false data]> w)).
Proof.
  rewrite (save_then_load (env := Demo.env)). cbv zeta.
  change (json_loads (json_dumps false data)) with (Demo.loads (Demo.dumps false data)).
  by rewrite loads_dumps.
Qed.

(** *** [strip] leaves a printed collection alone *)

Lemma text_of_bytes_of s : app.text_of (app.bytes_of s) = s.
Proof.
  unfold app.text_of, app.bytes_of. induction s as [|a s IH]; [done|].
  simpl. rewrite Nat2N.id, Ascii.ascii_nat_embedding. f_equal. apply IH.
Qed.

Lemma no_space_before_bracket (b c : N) :
  app.space_prefix [c; b; 93%N] ≠ 3 ∧ app.space_prefix [b; 93%N] ≠ 2.
Proof.
  assert (∀ x y : bool, x && false || y && false = false) as Hnever
    by (by intros [] []).
  unfold app.space_prefix. split.
  - destruct (app.is_ascii_space c); [done|].
    repeat case_match; try done; simpl in *;
      rewrite ?andb_false_r, ?Hnever in *; done.
  - destruct (app.is_ascii_space b); [done|].
    repeat case_match; try done; simpl in *;
      rewrite ?andb_false_r, ?Hnever in *; done.
Qed.

Lemma strip_bracketed (body : list N) :
  let l := 91%N :: body ++ [93%N] in
  app.lstrip_bytes (length l) l = l
  ∧ rev (app.rstrip_rev (length l) (rev l)) = l.
Proof.
  intros l. split; [done|].
  assert (rev l = 93%N :: rev body ++ [91%N]) as Hrev.
  { unfold l. simpl. by rewrite rev_app_distr. }
  rewrite Hrev.
  assert (app.space_suffix (93%N :: rev body ++ [91%N]) = 0) as Hsuffix.
  { unfold app.space_suffix. change (app.is_ascii_space 93) with false. cbv iota.
    destruct (rev body ++ [91%N]) as [|b [|c rest]]; [done|..].
    - destruct (no_space_before_bracket b 0) as [_ H2].
      destruct (Nat.eqb_spec (app.space_prefix [b; 93%N]) 2); done.
    - destruct (no_space_before_bracket b c) as [H3 H2].
      destruct (Nat.eqb_spec (app.space_prefix [c; b; 93%N]) 3); [done|].
      destruct (Nat.eqb_spec (app.space_prefix [b; 93%N]) 2); done. }
  replace (length l) with (S (length (body ++ [93%N]))) by done.
  cbn [app.rstrip_rev]. rewrite Hsuffix.
  rewrite <- Hrev. apply rev_involutive.
Qed.

Lemma put_items_last {A} (put : A → Demo.chars) (items : list A) close :
  ∃ body, Demo.put_items put items close = body ++ [close].
Proof.
  induction items as [|x [|y items] IH].
  - by exists [].
  - by exists (put x).
  - destruct IH as [body IH].
    change (Demo.put_items put (x :: y :: items) close)
      with (put x ++ String.list_ascii_of_string ", "
            ++ Demo.put_items put (y :: items) close).
    rewrite IH.
    exists (put x ++ String.list_ascii_of_string ", " ++ body).
    by rewrite <- !app_assoc.
Qed.

Lemma strip_dumps ensure_ascii data :
  app.strip (Demo.dumps ensure_ascii data) = Demo.dumps ensure_ascii data.
Proof.
  destruct (put_items_last Demo.put_object data "]"%char) as [body Hbody].
  set (byte := λ a : Ascii.ascii, N.of_nat (Ascii.nat_of_ascii a)).
  assert (app.bytes_of (Demo.dumps ensure_ascii data) = 91%N :: (byte <$> body) ++ [93%N])
    as Hbytes.
  { unfold app.bytes_of, Demo.dumps, Demo.put_array.
    rewrite String.list_ascii_of_string_of_list_ascii, Hbody.
    rewrite fmap_cons, fmap_app. done. }
  unfold app.strip.
  replace (String.length (Demo.dumps ensure_ascii data))
    with (length (app.bytes_of (Demo.dumps ensure_ascii data))).
  - rewrite Hbytes. cbv zeta.
    destruct (strip_bracketed (byte <$> body)) as [Hleft Hright].
    rewrite Hleft, Hright, <- Hbytes. apply text_of_bytes_of.
  - unfold app.bytes_of. rewrite length_fmap.
    generalize (Demo.dumps ensure_ascii data). intros s.
    induction s as [|a s IH]; simpl; [done|by rewrite IH].
Qed.

(** With this codec the response endpoint reads back every collection
    that it writes. *)
Lemma reloads_concrete data : reloads (env := Demo.env) data.
Proof.
  unfold reloads.
  change (json_dumps true data) with (Demo.dumps true data).
  change (@json_loads Demo.env) with Demo.loads.
  rewrite strip_dumps. split; [done|]. apply loads_dumps.
Qed.

(** * Further properties of the two programs *)

(** ** The loaders and the shared store files *)

Section shared_stores.
Context {env : Collaborators}.

(** X2. The two programs share the store files: what the response
    endpoint saves (ASCII only), the campaign engine loads, and what the
    campaign engine saves, the response endpoint loads after stripping
    it, for every collection that the JSON codec carries through. *)
Theorem stores_are_shared w filename (data : list dict) :
  json_loads (json_dumps true data) = Some data →
  app.strip (json_dumps false data) ≠ "" →
  json_loads (app.strip (json_dumps false data)) = Some data →
  (app.save_json filename data ≫= λ _, Scheduler.load_json filename) w
  = Ok data (saved filename data w)
  ∧ (Scheduler.save_json filename data ≫= λ _, app.load_json filename) w
    = Ok data (set_writes (λ l, l ++ [filename])
                 (set_fs <[filename := json_dumps false data]> w)).
Proof.
  intros Hascii Hne Hstrip. split.
  - rewrite (bind_Ok _ _ _ _ _ (app_save_json _ _ _)).
    apply Scheduler_load_json_store. unfold store_is, saved. cbn.
    by rewrite lookup_insert_eq.
  - unfold Scheduler.save_json. mrun. rewrite app_load_json_stored.
    unfold stored. cbn. rewrite lookup_insert_eq.
    rewrite bool_decide_eq_false_2 by done. by rewrite Hstrip.
Qed.

End shared_stores.

Lemma stores_are_shared_witness :
  let w := Demo.world None None None in
  let data := [Demo.ann; Demo.bob] in
  (app.save_json (env := Demo.env) CONTACTS_FILE data
   ≫= λ _, Scheduler.load_json (env := Demo.env) CONTACTS_FILE) w
  = Ok data (saved (env := Demo.env) CONTACTS_FILE data w)
  ∧ (Scheduler.save_json (env := Demo.env) CONTACTS_FILE data
     ≫= λ _, app.load_json (env := Demo.env) CONTACTS_FILE) w
    = Ok data (set_writes (λ l, l ++ [CONTACTS_FILE])
                 (set_fs <[CONTACTS_FILE := Demo.dumps false data]> w)).
Proof.
  apply (stores_are_shared (env := Demo.env)); by_evaluation.
Defined.

(** ** The initial send *)

Section initial_send_effects.
Context {env : Collaborators}.

(** X3. A message that can be composed (template, id, name, e-mail and
    rendering all there), that the transport accepts, with a tracking log
    that is missing or parses: [send_email] returns [True], hands exactly
    that message to the transport, writes the log once with one more
    event after the events it held (five fields: the id, name and e-mail
    of the record, the action "email_sent" and the time of the send), and
    touches neither the contact store nor the timer. *)
Theorem send_email_delivers contact w id name email message tracking :
  Scheduler.compose contact Scheduler.initial_subject None w
    = Ok (id, name, email, message) w →
  smtp_submit (now w) message = None →
  store_is w TRACKING_FILE tracking →
  ∃ w',
    Scheduler.send_email contact w = Ok true w'
    ∧ outbox w' = outbox w ++ [message]
    ∧ msg_to message = email
    ∧ fs w' = <[TRACKING_FILE :=
                 json_dumps false
                   (tracking ++ [tracking_entry id name email "email_sent"
                                   (isoformat (now w))])]> (fs w)
    ∧ writes w' = writes w ++ [TRACKING_FILE]
    ∧ reminder_scheduler w' = reminder_scheduler w
    ∧ (∃ event,
         fs w' !! TRACKING_FILE = Some (json_dumps false (tracking ++ [event]))
         ∧ event_of event id name email "email_sent" (isoformat (now w))
         ∧ contact !! "id" = Some id
         ∧ contact !! "name" = Some name
         ∧ contact !! "email" = Some email).
Proof.
  intros Hcompose Hsmtp Htracking.
  pose proof (compose_inv contact Scheduler.initial_subject None w) as Hinv.
  rewrite Hcompose in Hinv. destruct Hinv as (_ & Hid & Hname & Hemail & Hto & _).
  eexists. split.
  - unfold Scheduler.send_email. apply try_except_Ok.
    rewrite (bind_Ok _ _ _ _ _ Hcompose).
    unfold Scheduler.smtp_send. mrun. rewrite Hsmtp.
    assert (store_is (set_outbox (λ l, l ++ [message]) w) TRACKING_FILE tracking) as Ht
      by done.
    rewrite (Scheduler_load_json_store _ _ _ Ht).
    unfold Scheduler.save_json. mrun. reflexivity.
  - cbn. repeat (split; [done|]). eexists. rewrite lookup_insert_eq.
    split; [done|]. split; [apply tracking_entry_event|done].
Qed.

(** X4. When the transport accepts the message but the tracking log
    exists and is not JSON, the message has gone out and [send_email]
    still returns [False]: the loader's error is caught by the blanket
    handler, no file is written, and the console names the error. *)
Theorem send_email_unlogged_delivery contact w id name email message text :
  Scheduler.compose contact Scheduler.initial_subject None w
    = Ok (id, name, email, message) w →
  smtp_submit (now w) message = None →
  fs w !! TRACKING_FILE = Some text →
  json_loads text = None →
  Scheduler.send_email contact w
  = Ok false (set_stdout (λ l, l ++ [failure_line name JSONDecodeError])
                (set_outbox (λ l, l ++ [message]) w)).
Proof.
  intros Hcompose Hsmtp Hfile Hparse.
  pose proof (compose_inv contact Scheduler.initial_subject None w) as Hinv.
  rewrite Hcompose in Hinv. destruct Hinv as (_ & _ & Hname & _).
  unfold Scheduler.send_email.
  erewrite try_except_Raise.
  - unfold Exception. by apply send_email_handler.
  - rewrite (bind_Ok _ _ _ _ _ Hcompose).
    unfold Scheduler.smtp_send. mrun. rewrite Hsmtp.
    by rewrite (Scheduler_load_json_malformed _ _ text).
Qed.

(** X5. A message that cannot be composed (no template file, a template
    that does not compile, a record without id or e-mail, a rendering
    error) is not sent: [send_email] returns [False], prints the error
    after the contact's name, and leaves files, outbox and timer alone. *)
Theorem send_email_not_composed contact w name e :
  Scheduler.compose contact Scheduler.initial_subject None w = Raise e w →
  contact !! "name" = Some name →
  Scheduler.send_email contact w
  = Ok false (set_stdout (λ l, l ++ [failure_line name e]) w).
Proof.
  intros Hcompose Hname. unfold Scheduler.send_email.
  erewrite try_except_Raise.
  - unfold Exception. by apply send_email_handler.
  - by apply bind_Raise.
Qed.

End initial_send_effects.

Lemma send_email_delivers_witness :
  let w := Demo.world_with [Demo.ann] [Demo.bob] None in
  ∃ w',
    Scheduler.send_email (env := Demo.env) Demo.ann w = Ok true w'
    ∧ length (outbox w') = 1
    ∧ Demo.loads <$> fs w' !! TRACKING_FILE
      = Some (Some [Demo.bob;
                    list_to_map [("contact_id", VInt 1); ("contact_name", VStr "Ann");
                                 ("contact_email", VStr "ann@example.com");
                                 ("action", VStr "email_sent");
                                 ("timestamp", VStr "1000")]])
    ∧ writes w' = [TRACKING_FILE].
Proof.
  intros w.
  destruct (send_email_delivers (env := Demo.env) Demo.ann w (VInt 1) (VStr "Ann")
              (VStr "ann@example.com")
              {| msg_subject := Scheduler.initial_subject (env := Demo.env);
                 msg_from := "Sales <sales@example.com>";
                 msg_to := VStr "ann@example.com";
                 msg_html := "Hello Ann" |} [Demo.bob])
    as (w' & Hrun & Hout & _ & Hfs & Hwrites & _).
  - by_evaluation.
  - by_evaluation.
  - unfold store_is.
    assert (fs w !! TRACKING_FILE = Some (Demo.dumps false [Demo.bob])) as ->
      by by_evaluation.
    by_evaluation.
  - exists w'. split; [exact Hrun|]. rewrite Hout, Hfs, Hwrites.
    repeat split; by_evaluation.
Defined.

Lemma send_email_unlogged_delivery_witness :
  let w := Demo.world None (Some "not json") None in
  Scheduler.send_email (env := Demo.env) Demo.ann w
  = Ok false
      (set_stdout (λ l, l ++ [failure_line (env := Demo.env) (VStr "Ann") JSONDecodeError])
         (set_outbox
            (λ l, l ++ [{| msg_subject := Scheduler.initial_subject (env := Demo.env);
                           msg_from := "Sales <sales@example.com>";
                           msg_to := VStr "ann@example.com";
                           msg_html := "Hello Ann" |}]) w)).
Proof.
  intros w.
  apply (send_email_unlogged_delivery (env := Demo.env) Demo.ann w (VInt 1) (VStr "Ann")
           (VStr "ann@example.com") _ "not json"); by_evaluation.
Defined.

Lemma send_email_not_composed_witness :
  let w := set_fs (delete TEMPLATE_FILE) (Demo.world None None None) in
  Scheduler.send_email (env := Demo.env) Demo.ann w
  = Ok false (set_stdout
                (λ l, l ++ [failure_line (env := Demo.env) (VStr "Ann")
                              (FileNotFoundError TEMPLATE_FILE)]) w).
Proof.
  intros w.
  apply (send_email_not_composed (env := Demo.env) Demo.ann w (VStr "Ann")
           (FileNotFoundError TEMPLATE_FILE)); by_evaluation.
Defined.

(** ** One firing of the reminder routine *)

Section reminder_cases.
Context {env : Collaborators}.

Lemma Scheduler_load_json_Raise filename w e w' :
  Scheduler.load_json filename w = Raise e w' →
  w' = w ∧ e = JSONDecodeError
  ∧ ∃ text, fs w !! filename = Some text ∧ json_loads text = None.
Proof.
  unfold Scheduler.load_json, try_except, read_file. mrun.
  destruct (fs w !! filename) as [text|] eqn:Hfile; simpl; [|done].
  destruct (json_loads text) eqn:Hparse; [done|].
  intros [= <- <-]. eauto.
Qed.

(** The handler of [send_reminder_email] changes the console at most. *)
Lemma reminder_handler_frame (contact : dict) e w :
  let r := (name ← lift (getitem contact "name");
            print ("❌ Failed to send reminder to " +:+ str name +:+ ": " +:+ exn_str e)) w in
  fs (world_of r) = fs w ∧ outbox (world_of r) = outbox w
  ∧ reminder_scheduler (world_of r) = reminder_scheduler w
  ∧ writes (world_of r) = writes w.
Proof. unfold getitem. mrun. by destruct (contact !! "name"). Qed.

(** Everything one firing can do to the files, the outbox and the timer,
    whichever way it ends. *)
Lemma send_reminder_email_cases w id interval :
  let w' := world_of (Scheduler.send_reminder_email id interval w) in
  (fs w' = fs w ∧ outbox w' = outbox w ∧ reminder_scheduler w' = reminder_scheduler w)
  ∨ ∃ contacts i c n,
      store_is w CONTACTS_FILE contacts ∧ first_with_id contacts id i c
      ∧ Scheduler.is_pending c = true
      ∧ dict_get c "reminder_count" (VInt 0) = VInt n
      ∧ ((n >= Scheduler.MAX_REMINDERS)%Z
         ∧ fs w' = <[CONTACTS_FILE :=
                      json_dumps false (<[i := resolved c (now w)]> contacts)]> (fs w)
         ∧ outbox w' = outbox w
         ∧ reminder_scheduler w' = reminder_scheduler w
         ∨ (n < Scheduler.MAX_REMINDERS)%Z
           ∧ ∃ cid name email message,
               Scheduler.compose c Scheduler.reminder_subject (Some (n + 1)%Z) w
                 = Ok (cid, name, email, message) w
               ∧ smtp_submit (now w) message = None
               ∧ outbox w' = outbox w ++ [message]
               ∧ ((∃ text, fs w !! TRACKING_FILE = Some text ∧ json_loads text = None)
                  ∧ fs w' = fs w ∧ reminder_scheduler w' = reminder_scheduler w
                  ∨ ∃ tracking,
                      store_is w TRACKING_FILE tracking
                      ∧ fs w' = <[CONTACTS_FILE :=
                                   json_dumps false
                                     (<[i := reminded c (n + 1) (now w)]> contacts)]>
                                (<[TRACKING_FILE :=
                                    json_dumps false
                                      (tracking
                                       ++ [reminder_event cid name email (n + 1) (now w)])]>
                                   (fs w))
                      ∧ (reminder_scheduler w'
                         = (if bool_decide (n + 1 < Scheduler.MAX_REMINDERS)%Z
                            then (λ jobs, jobs ++ [next_job cid (n + 1) (now w) interval])
                                   <$> reminder_scheduler w
                            else reminder_scheduler w)
                         ∨ (n + 1 < Scheduler.MAX_REMINDERS)%Z
                           ∧ reminder_scheduler w' = reminder_scheduler w
                           ∧ ∃ jobs, reminder_scheduler w = Some jobs
                                     ∧ job_id (next_job cid (n + 1) (now w) interval)
                                       ∈ job_id <$> jobs))).
Proof.
  intros w'. subst w'.
  remember (Scheduler.send_reminder_email id interval w) as r eqn:Hr.
  unfold Scheduler.send_reminder_email in Hr.
  pose proof (Scheduler_load_json_inv CONTACTS_FILE w) as Hload.
  unfold mbind at 1, M_bind at 1 in Hr.
  destruct (Scheduler.load_json CONTACTS_FILE w) as [contacts w0|e w0];
    [destruct Hload as [-> Hstore]|subst; by left].
  unfold mbind at 1, M_bind at 1 in Hr.
  destruct (find_by_id contacts id 0) as [e|[[i c]|]] eqn:Hfind;
    [subst; by left| |subst; by left].
  apply find_by_id_Some in Hfind as (i' & -> & Hfirst). simpl in Hr.
  rewrite (first_with_id_nonempty _ _ _ _ Hfirst) in Hr. simpl in Hr.
  destruct (Scheduler.is_pending c) eqn:Hpending; [|subst; by left]. simpl in Hr.
  unfold mbind at 1, M_bind at 1 in Hr.
  destruct (dict_get c "reminder_count" (VInt 0)) as [|n|] eqn:Hcount;
    [subst; by left| |subst; by left].
  simpl in Hr. case_bool_decide as Hcap.
  - right. exists contacts, i', c, n. do 4 (split; [done|]). left. split; [done|].
    revert Hr. unfold Scheduler.save_json, getitem. mrun. fold (resolved c (now w)).
    intros ->. by destruct (resolved c (now w) !! "name").
  - unfold try_except in Hr.
    pose proof (compose_inv c Scheduler.reminder_subject (Some (n + 1)%Z) w) as Hinv.
    unfold mbind at 1, M_bind at 1 in Hr.
    destruct (Scheduler.compose c Scheduler.reminder_subject (Some (n + 1)%Z) w)
      as [[[[cid name] email] message] w1|e w1] eqn:Hcompose.
    2:{ subst w1. left. subst r. unfold Exception.
        destruct (reminder_handler_frame c e w) as (? & ? & ? & _). done. }
    destruct Hinv as (-> & Hid & Hname & _).
    unfold Scheduler.smtp_send at 1 in Hr. unfold mbind at 1, M_bind at 1 in Hr.
    destruct (smtp_submit (now w) message) as [e|] eqn:Hsmtp.
    { left. subst r. unfold Exception.
      destruct (reminder_handler_frame c e w) as (? & ? & ? & _). done. }
    right. exists contacts, i', c, n. do 4 (split; [done|]). right. split; [lia|].
    exists cid, name, email, message. do 2 (split; [done|]).
    unfold mbind at 1, M_bind at 1 in Hr. unfold datetime_now at 1 in Hr.
    unfold mbind at 1, M_bind at 1 in Hr.
    pose proof (Scheduler_load_json_inv TRACKING_FILE
                  (set_outbox (λ l, l ++ [message]) w)) as Hload.
    destruct (Scheduler.load_json TRACKING_FILE _) as [tracking w2|e w2] eqn:Htr.
    2:{ apply Scheduler_load_json_Raise in Htr as (-> & -> & text & Hfile & Hparse).
        subst r. unfold Exception.
        destruct (reminder_handler_frame c JSONDecodeError
                    (set_outbox (λ l, l ++ [message]) w)) as (Hfs & Hout & Hs & _).
        split; [by rewrite Hout|]. left. split; [by exists text|].
        by rewrite Hfs, Hs. }
    destruct Hload as [-> Htracking].
    revert Hr.
    unfold Scheduler.save_json, Scheduler.get_reminder_scheduler, Scheduler.add_job. mrun.
    fold (reminded c (n + 1) (now w)). fold (reminder_event cid name email (n + 1) (now w)).
    fold (next_job cid (n + 1) (now w) interval).
    case_bool_decide as Hnext; cbn.
    + destruct (reminder_scheduler w) as [jobs|] eqn:Hs.
      * cbn. rewrite ?Hs. case_bool_decide as Hconflict; intros ->.
        -- unfold Exception, getitem. rewrite Hname. cbn. split; [done|].
           right. exists tracking. do 2 (split; [done|]). right.
           split; [done|]. split; [done|]. by exists jobs.
        -- cbn. rewrite ?Hs. split; [done|]. right. exists tracking.
           do 2 (split; [done|]). by left.
      * intros ->. cbn. rewrite ?Hs. split; [done|]. right. exists tracking.
        do 2 (split; [done|]). by left.
    + intros ->. cbn. split; [done|]. right. exists tracking.
      do 2 (split; [done|]). by left.
Qed.

End reminder_cases.

Lemma find_by_id_total contacts id k :
  Forall (λ c, is_Some (c !! "id")) contacts → ∃ r, find_by_id contacts id k = inr r.
Proof.
  revert k. induction contacts as [|c rest IH]; intros k Hall; [by eexists|].
  apply Forall_cons in Hall as [[v Hv] Hall]. simpl. rewrite Hv.
  destruct (decide (v = id)); [by eexists|]. by apply IH.
Qed.

Section reminder_firing.
Context {env : Collaborators}.

(** X6. A firing for a pending contact whose reminder count has reached
    the cap resolves it: the status becomes not_interested, [updated_at]
    is stamped, every other field and every other record stay as they
    were, the contact store is the only file written, no message is sent
    and no job is scheduled. *)
Theorem reminder_at_cap_resolves w id interval contacts i c n name :
  store_is w CONTACTS_FILE contacts →
  first_with_id contacts id i c →
  Scheduler.is_pending c = true →
  dict_get c "reminder_count" (VInt 0) = VInt n →
  (n >= Scheduler.MAX_REMINDERS)%Z →
  c !! "name" = Some name →
  ∃ w',
    Scheduler.send_reminder_email id interval w = Ok tt w'
    ∧ fs w' = <[CONTACTS_FILE :=
                 json_dumps false (<[i := resolved c (now w)]> contacts)]> (fs w)
    ∧ resolved c (now w) !! "status" = Some (VStr "not_interested")
    ∧ resolved c (now w) !! "updated_at" = Some (VStr (isoformat (now w)))
    ∧ (∀ k, k ≠ "status" → k ≠ "updated_at" → resolved c (now w) !! k = c !! k)
    ∧ writes w' = writes w ++ [CONTACTS_FILE]
    ∧ outbox w' = outbox w
    ∧ reminder_scheduler w' = reminder_scheduler w.
Proof.
  intros Hstore Hfirst Hpending Hcount Hcap Hname.
  eexists. split; [by eapply send_reminder_email_cap|].
  unfold resolved. cbn. repeat split; try done.
  - rewrite lookup_insert_ne by done. by rewrite lookup_insert_eq.
  - by rewrite lookup_insert_eq.
  - intros k Hk1 Hk2. by rewrite !lookup_insert_ne.
Qed.


(** X8. A reminder that the transport refuses is dropped for good: the
    firing returns normally, prints the error, writes no file (so the
    count is not raised) and schedules no job to try again. *)
Theorem reminder_refused_is_dropped w id interval contacts i c n cid name email message e :
  store_is w CONTACTS_FILE contacts →
  first_with_id contacts id i c →
  Scheduler.is_pending c = true →
  dict_get c "reminder_count" (VInt 0) = VInt n →
  (n < Scheduler.MAX_REMINDERS)%Z →
  Scheduler.compose c Scheduler.reminder_subject (Some (n + 1)%Z) w
    = Ok (cid, name, email, message) w →
  smtp_submit (now w) message = Some e →
  Scheduler.send_reminder_email id interval w
  = Ok tt (set_stdout (λ l, l ++ [reminder_failure_line name e]) w).
Proof.
  intros Hstore Hfirst Hpending Hcount Hcap Hcompose Hsmtp.
  pose proof (compose_inv c Scheduler.reminder_subject (Some (n + 1)%Z) w) as Hinv.
  rewrite Hcompose in Hinv. destruct Hinv as (_ & _ & Hname & _).
  unfold Scheduler.send_reminder_email.
  rewrite (bind_Ok _ _ _ _ _ (Scheduler_load_json_store _ _ _ Hstore)).
  rewrite (find_by_id_first _ _ _ _ 0 Hfirst). mrun.
  rewrite (first_with_id_nonempty _ _ _ _ Hfirst), Hpending, Hcount. simpl.
  rewrite bool_decide_eq_false_2 by lia.
  unfold try_except. rewrite Hcompose.
  unfold Scheduler.smtp_send. rewrite Hsmtp.
  unfold Exception, getitem. by rewrite Hname.
Qed.

(** X9. With a contact store that is missing or parses and whose records
    are well formed, a firing never raises, whatever the template, the
    transport and the tracking log do: every error after the cap test is
    caught by the routine's own handler. *)
Theorem send_reminder_email_never_raises w id interval contacts :
  store_is w CONTACTS_FILE contacts →
  Forall well_formed contacts →
  ∃ w', Scheduler.send_reminder_email id interval w = Ok tt w'.
Proof.
  intros Hstore Hwf. unfold Scheduler.send_reminder_email.
  rewrite (bind_Ok _ _ _ _ _ (Scheduler_load_json_store _ _ _ Hstore)).
  destruct (find_by_id_total contacts id 0) as [r Hr].
  { eapply Forall_impl; [exact Hwf|]. by intros c (? & _). }
  rewrite Hr. mrun. destruct r as [[j c]|]; [|by eauto].
  apply find_by_id_Some in Hr as (i & -> & Hi & _).
  eapply Forall_lookup_1 in Hwf as (_ & [name Hname] & n & Hcount); [|exact Hi].
  destruct (bool_decide (c = ∅) || negb (Scheduler.is_pending c)); [by eauto|].
  rewrite Hcount. simpl. case_bool_decide.
  - unfold Scheduler.save_json, getitem. mrun.
    rewrite !lookup_insert_ne by done. rewrite Hname. by eauto.
  - unfold try_except.
    match goal with |- context [match ?b with Ok _ _ => _ | Raise _ _ => _ end] =>
      destruct b as [[] w1|e w1] end.
    + by eauto.
    + unfold Exception, getitem. rewrite Hname. mrun. by eauto.
Qed.

(** X10. A firing sends at most one message, and only a reminder to the
    address of a contact that is pending and below the cap: if the outbox
    has changed, the store parsed, the first record with the id was
    pending with a count under [MAX_REMINDERS], and the one new message
    is the reminder composed for it. *)
Theorem reminder_only_to_pending_below_cap w id interval :
  let w' := world_of (Scheduler.send_reminder_email id interval w) in
  outbox w' = outbox w
  ∨ ∃ contacts i c n message,
      store_is w CONTACTS_FILE contacts
      ∧ first_with_id contacts id i c
      ∧ Scheduler.is_pending c = true
      ∧ dict_get c "reminder_count" (VInt 0) = VInt n
      ∧ (n < Scheduler.MAX_REMINDERS)%Z
      ∧ outbox w' = outbox w ++ [message]
      ∧ c !! "email" = Some (msg_to message)
      ∧ msg_subject message = Scheduler.reminder_subject.
Proof.
  intros w'.
  destruct (send_reminder_email_cases w id interval)
    as [(_ & Hout & _)|(contacts & i & c & n & Hstore & Hfirst & Hpending & Hcount & Hcases)];
    [by left|].
  destruct Hcases as [(_ & _ & Hout & _)|(Hlt & cid & name & email & message & Hcompose
                                           & _ & Hout & _)]; [by left|].
  right. exists contacts, i, c, n, message.
  pose proof (compose_inv c Scheduler.reminder_subject (Some (n + 1)%Z) w) as Hinv.
  rewrite Hcompose in Hinv. destruct Hinv as (_ & _ & _ & Hemail & Hto & Hsubject).
  repeat split; try done; try apply Hfirst. by rewrite Hto.
Qed.

(** X11. A pending record whose reminder count is null or a string
    makes the firing raise [TypeError] at the cap test, before anything
    is sent, written or scheduled. *)
Theorem reminder_count_not_an_integer w id interval contacts i c v :
  store_is w CONTACTS_FILE contacts →
  first_with_id contacts id i c →
  Scheduler.is_pending c = true →
  c !! "reminder_count" = Some v →
  (∀ n, v ≠ VInt n) →
  Scheduler.send_reminder_email id interval w = Raise TypeError w.
Proof.
  intros Hstore Hfirst Hpending Hcount Hv.
  unfold Scheduler.send_reminder_email.
  rewrite (bind_Ok _ _ _ _ _ (Scheduler_load_json_store _ _ _ Hstore)).
  rewrite (find_by_id_first _ _ _ _ 0 Hfirst). mrun.
  rewrite (first_with_id_nonempty _ _ _ _ Hfirst), Hpending. simpl.
  unfold dict_get. rewrite Hcount. simpl.
  destruct v as [|n|s]; [done| |done]. by destruct (Hv n).
Qed.

End reminder_firing.

Lemma world_with_contacts contacts tracking timer :
  store_is (env := Demo.env) (Demo.world_with contacts tracking timer) CONTACTS_FILE contacts.
Proof.
  unfold store_is.
  assert (fs (Demo.world_with contacts tracking timer) !! CONTACTS_FILE
          = Some (Demo.dumps false contacts)) as -> by done.
  apply (loads_dumps false).
Qed.

Lemma world_with_tracking contacts tracking timer :
  store_is (env := Demo.env) (Demo.world_with contacts tracking timer) TRACKING_FILE tracking.
Proof.
  unfold store_is.
  assert (fs (Demo.world_with contacts tracking timer) !! TRACKING_FILE
          = Some (Demo.dumps false tracking)) as -> by done.
  apply (loads_dumps false).
Qed.

Lemma reminder_at_cap_resolves_witness :
  let w := Demo.world_with [Demo.bob; capped] [] (Some []) in
  ∃ w',
    Scheduler.send_reminder_email (env := Demo.env) (VInt 1) None w = Ok tt w'
    ∧ Demo.loads <$> fs w' !! CONTACTS_FILE
      = Some (Some [Demo.bob; resolved (env := Demo.env) capped 1000])
    ∧ writes w' = [CONTACTS_FILE] ∧ outbox w' = [] ∧ reminder_scheduler w' = Some [].
Proof.
  intros w.
  destruct (reminder_at_cap_resolves (env := Demo.env) w (VInt 1) None [Demo.bob; capped]
              1 capped 3 (VStr "Ann"))
    as (w' & Hrun & Hfs & _ & _ & _ & Hwrites & Hout & Hsched).
  - apply world_with_contacts.
  - split; [reflexivity|]. split; [by_evaluation|].
    apply Forall_cons. split; [|constructor].
    exists (VInt 2). split; [by_evaluation|discriminate].
  - by_evaluation.
  - by_evaluation.
  - by_evaluation.
  - by_evaluation.
  - exists w'. split; [exact Hrun|]. rewrite Hfs, Hwrites, Hout, Hsched.
    repeat split; by_evaluation.
Defined.


Lemma reminder_refused_is_dropped_witness :
  let w := Demo.world_with [Demo.cy] [] (Some []) in
  Scheduler.send_reminder_email (env := Demo.env) (VInt 3) None w
  = Ok tt (set_stdout
             (λ l, l ++ [reminder_failure_line (env := Demo.env) (VStr "Cy")
                           (SMTPException "recipient refused")]) w).
Proof.
  intros w.
  apply (reminder_refused_is_dropped (env := Demo.env) w (VInt 3) None [Demo.cy] 0 Demo.cy 0
           (VInt 3) (VStr "Cy") (VStr "cy@example.com")
           (reminder_for "Cy" "cy@example.com")).
  - apply world_with_contacts.
  - split; [reflexivity|]. split; [by_evaluation|constructor].
  - by_evaluation.
  - by_evaluation.
  - unfold Scheduler.MAX_REMINDERS. lia.
  - by_evaluation.
  - by_evaluation.
Defined.

Lemma send_reminder_email_never_raises_witness :
  ∃ w', Scheduler.send_reminder_email (env := Demo.env) (VInt 3) None
          (Demo.world_with [Demo.ann; Demo.bob; Demo.cy] [] (Some []))
        = Ok tt w'.
Proof.
  apply (send_reminder_email_never_raises (env := Demo.env) _ (VInt 3) None
           [Demo.ann; Demo.bob; Demo.cy]).
  - apply world_with_contacts.
  - repeat (apply Forall_cons; split); [..|constructor];
      (split; [by_evaluation|]); (split; [by_evaluation|]); exists 0%Z; by_evaluation.
Defined.

Lemma reminder_count_not_an_integer_witness :
  let c : dict := <["reminder_count" := VNone]> Demo.ann in
  let w := Demo.world_with [c] [] (Some []) in
  Scheduler.send_reminder_email (env := Demo.env) (VInt 1) None w = Raise TypeError w.
Proof.
  intros c w.
  apply (reminder_count_not_an_integer (env := Demo.env) w (VInt 1) None [c] 0 c VNone).
  - apply world_with_contacts.
  - split; [reflexivity|]. split; [by_evaluation|constructor].
  - by_evaluation.
  - by_evaluation.
  - discriminate.
Defined.

(** ** What a campaign run does to the records *)

Section campaign_records.
Context {env : Collaborators}.





End campaign_records.



(** ** What a campaign run hands to the reminder timer *)


Section campaign_timer.
Context {env : Collaborators}.



End campaign_timer.



(** ** Any number of firings *)

Lemma sum_list_insert {A} (f : A → nat) (l : list A) i a a' :
  l !! i = Some a →
  sum_list (f <$> <[i := a']> l) + f a = sum_list (f <$> l) + f a'.
Proof.
  revert i. induction l as [|b l IH]; intros i Hi; [done|].
  destruct i as [|i].
  - injection Hi as ->. change (<[0:=a']> (a :: l)) with (a' :: l).
    rewrite !fmap_cons. simpl. lia.
  - change (<[S i:=a']> (b :: l)) with (b :: <[i:=a']> l).
    rewrite !fmap_cons. simpl. specialize (IH i Hi). lia.
Qed.

Section firings.
Context {env : Collaborators}.

Lemma store_is_inj w filename a b :
  store_is w filename a → store_is w filename b → a = b.
Proof. unfold store_is. destruct (fs w !! filename); congruence. Qed.

Lemma run_timer_fires fuel w :
  ∃ jobs, Scheduler.run_timer fuel w = Ok tt (fire_all jobs w).
Proof.
  revert w. induction fuel as [|fuel IH]; intros w; [by exists []|].
  simpl. destruct (reminder_scheduler w) as [[|j jobs]|]; [by exists []| |by exists []].
  destruct (IH (world_of (Scheduler.fire (Scheduler.earliest j jobs) w))) as [fired Hrun].
  exists (Scheduler.earliest j jobs :: fired).
  assert (Scheduler.fire (Scheduler.earliest j jobs) w
          = Ok tt (world_of (Scheduler.fire (Scheduler.earliest j jobs) w))) as Hfire by done.
  by rewrite (bind_Ok _ _ _ _ _ Hfire).
Qed.

Section with_codec.
Hypothesis codec : ∀ data, json_loads (json_dumps false data) = Some data.

Lemma reminded_left c n t :
  Scheduler.is_pending c = true →
  dict_get c "reminder_count" (VInt 0) = VInt n →
  (n < Scheduler.MAX_REMINDERS)%Z →
  S (reminders_left (reminded c (n + 1) t)) = reminders_left c.
Proof.
  intros Hpending Hcount Hlt. unfold reminders_left. rewrite Hpending, Hcount.
  assert (Scheduler.is_pending (reminded c (n + 1) t) = true) as ->.
  { rewrite <- Hpending. unfold Scheduler.is_pending, dict_get, reminded.
    by rewrite !lookup_insert_ne by done. }
  unfold dict_get, reminded. rewrite !lookup_insert_ne by done.
  rewrite lookup_insert_eq. simpl. lia.
Qed.

Lemma resolved_left c t : reminders_left (resolved c t) = 0.
Proof.
  unfold reminders_left, Scheduler.is_pending, dict_get, resolved.
  rewrite lookup_insert_ne by done. by rewrite lookup_insert_eq.
Qed.

(** One firing keeps both stores readable, pays for a message out of the
    budget, and keeps the counts within the cap. *)
Lemma fire_step j w contacts :
  store_is w CONTACTS_FILE contacts →
  (∃ tracking, store_is w TRACKING_FILE tracking) →
  let w' := world_of (Scheduler.fire j w) in
  ∃ contacts',
    store_is w' CONTACTS_FILE contacts'
    ∧ (∃ tracking', store_is w' TRACKING_FILE tracking')
    ∧ (length (outbox w') + reminder_budget contacts'
       ≤ length (outbox w) + reminder_budget contacts)%nat
    ∧ (within_cap contacts → within_cap contacts').
Proof.
  intros Hstore [tracking Htracking] w'.
  set (w1 := set_now (Z.max (run_date j))
               (set_reminder_scheduler (fmap (Scheduler.discard j)) w)).
  assert (w' = world_of (Scheduler.send_reminder_email (job_args j).1
                           (Some (job_args j).2) w1)) as -> by done.
  assert (store_is w1 CONTACTS_FILE contacts) as Hstore1 by done.
  assert (store_is w1 TRACKING_FILE tracking) as Htracking1 by done.
  pose proof tracking_is_not_contacts as Hfiles.
  destruct (send_reminder_email_cases w1 (job_args j).1 (Some (job_args j).2))
    as [(Hfs & Hout & _)
       |(contacts0 & i & c & n & Hstore0 & Hfirst & Hpending & Hcount & Hcases)].
  { exists contacts. unfold store_is in *. rewrite Hfs, Hout.
    split; [done|]. split; [by exists tracking|]. done. }
  assert (contacts0 = contacts) as -> by (by eapply store_is_inj).
  destruct Hfirst as (Hi & _).
  destruct Hcases as [(Hcap & Hfs & Hout & _)
                     |(Hlt & cid & name & email & message & _ & _ & Hout & Hlog)].
  - exists (<[i := resolved c (now w1)]> contacts). unfold store_is. rewrite Hfs, Hout.
    rewrite lookup_insert_eq, lookup_insert_ne by done.
    split; [apply codec|]. split; [by exists tracking|]. split.
    + pose proof (sum_list_insert reminders_left contacts i c (resolved c (now w1)) Hi).
      rewrite resolved_left in *. unfold reminder_budget.
      change (outbox w1) with (outbox w). lia.
    + intros Hcap'. apply Forall_insert; [done|]. intros m. unfold resolved.
      rewrite !lookup_insert_ne by done.
      eapply Forall_lookup_1 in Hcap'; [|done]. apply Hcap'.
  - destruct Hlog as [((text & Hfile & Hbad) & _)|(tracking0 & Htracking0 & Hfs & _)].
    { unfold store_is in Htracking1. rewrite Hfile in Htracking1. congruence. }
    exists (<[i := reminded c (n + 1) (now w1)]> contacts). unfold store_is.
    rewrite Hfs, Hout. rewrite lookup_insert_eq, lookup_insert_ne by done.
    rewrite lookup_insert_eq.
    split; [apply codec|]. split; [eexists; apply codec|]. split.
    + pose proof (sum_list_insert reminders_left contacts i c
                    (reminded c (n + 1) (now w1)) Hi).
      pose proof (reminded_left c n (now w1) Hpending Hcount Hlt).
      unfold reminder_budget. rewrite length_app.
      change (outbox w1) with (outbox w). simpl length. lia.
    + intros Hcap'. apply Forall_insert; [done|]. intros m. unfold reminded.
      rewrite !lookup_insert_ne by done. rewrite lookup_insert_eq.
      intros [= <-]. lia.
Qed.

Lemma fire_all_invariant jobs w contacts :
  store_is w CONTACTS_FILE contacts →
  (∃ tracking, store_is w TRACKING_FILE tracking) →
  ∃ contacts',
    store_is (fire_all jobs w) CONTACTS_FILE contacts'
    ∧ (length (outbox (fire_all jobs w)) + reminder_budget contacts'
       ≤ length (outbox w) + reminder_budget contacts)%nat
    ∧ (within_cap contacts → within_cap contacts').
Proof.
  revert w contacts. induction jobs as [|j jobs IH]; intros w contacts Hstore Htracking.
  - exists contacts. by repeat split.
  - destruct (fire_step j w contacts Hstore Htracking)
      as (contacts1 & Hstore1 & Htracking1 & Hbudget1 & Hcap1).
    destruct (IH _ contacts1 Hstore1 Htracking1) as (contacts' & Hstore' & Hbudget' & Hcap').
    exists contacts'.
    change (fire_all (j :: jobs) w) with (fire_all jobs (world_of (Scheduler.fire j w))).
    cbv zeta in Hbudget1. split; [done|]. split; [lia|]. auto.
Qed.

(** X16. However many jobs the timer fires, one after another, for
    whichever contacts and in whatever order, the reminders sent are
    bounded by what the pending contacts are short of the cap: with
    stores that are missing or parse, and a codec that reads back what
    it writes, the outbox grows by at most the sum over the pending
    contacts of [MAX_REMINDERS] minus the reminder count (a missing
    count being 0).  The same holds for the timer run for any number of
    steps. *)
Theorem reminders_are_bounded w contacts tracking :
  store_is w CONTACTS_FILE contacts →
  store_is w TRACKING_FILE tracking →
  (∀ jobs, (length (outbox (fire_all jobs w))
            ≤ length (outbox w) + reminder_budget contacts)%nat)
  ∧ (∀ fuel, (length (outbox (world_of (Scheduler.run_timer fuel w)))
              ≤ length (outbox w) + reminder_budget contacts)%nat).
Proof.
  intros Hstore Htracking.
  assert (∀ jobs, (length (outbox (fire_all jobs w))
                   ≤ length (outbox w) + reminder_budget contacts)%nat) as Hall.
  { intros jobs.
    destruct (fire_all_invariant jobs w contacts Hstore) as (contacts' & _ & Hbudget & _);
      [by exists tracking|lia]. }
  split; [done|]. intros fuel. destruct (run_timer_fires fuel w) as [jobs ->]. apply Hall.
Qed.

(** X17. The cap is an invariant of the timer: from a contact store
    whose reminder counts are all at most [MAX_REMINDERS], after any
    sequence of firings, one after another (and so after any run of the
    timer), the store parses to a collection whose counts are all at
    most [MAX_REMINDERS]. *)
Theorem firings_keep_counts_within_cap w contacts tracking :
  store_is w CONTACTS_FILE contacts →
  store_is w TRACKING_FILE tracking →
  within_cap contacts →
  (∀ jobs, ∃ contacts', store_is (fire_all jobs w) CONTACTS_FILE contacts'
                        ∧ within_cap contacts')
  ∧ (∀ fuel, ∃ contacts',
        store_is (world_of (Scheduler.run_timer fuel w)) CONTACTS_FILE contacts'
        ∧ within_cap contacts').
Proof.
  intros Hstore Htracking Hcap.
  assert (∀ jobs, ∃ contacts', store_is (fire_all jobs w) CONTACTS_FILE contacts'
                               ∧ within_cap contacts') as Hall.
  { intros jobs.
    destruct (fire_all_invariant jobs w contacts Hstore) as (contacts' & ? & _ & Hcap');
      [by exists tracking|]. exists contacts'. auto. }
  split; [done|]. intros fuel. destruct (run_timer_fires fuel w) as [jobs ->]. apply Hall.
Qed.

End with_codec.

End firings.

Lemma reminders_are_bounded_witness :
  let w := Demo.world_with [Demo.ann; Demo.bob; capped] [] (Some []) in
  (∀ jobs, (length (outbox (fire_all (env := Demo.env) jobs w)) ≤ 3)%nat)
  ∧ (∀ fuel, (length (outbox (world_of (Scheduler.run_timer (env := Demo.env) fuel w)))
              ≤ 3)%nat).
Proof.
  intros w.
  destruct (reminders_are_bounded (env := Demo.env) (loads_dumps false) w
              [Demo.ann; Demo.bob; capped] [])
    as [Hjobs Hfuel].
  - apply world_with_contacts.
  - apply world_with_tracking.
  - assert (reminder_budget [Demo.ann; Demo.bob; capped] = 3) as Hbudget by by_evaluation.
    rewrite Hbudget in Hjobs, Hfuel. split; [exact Hjobs|exact Hfuel].
Defined.

Lemma firings_keep_counts_within_cap_witness :
  let w := Demo.world_with [Demo.ann; Demo.bob; capped] [] (Some []) in
  (∀ jobs, ∃ contacts',
      store_is (env := Demo.env) (fire_all (env := Demo.env) jobs w) CONTACTS_FILE contacts'
      ∧ within_cap contacts')
  ∧ (∀ fuel, ∃ contacts',
        store_is (env := Demo.env)
          (world_of (Scheduler.run_timer (env := Demo.env) fuel w)) CONTACTS_FILE contacts'
        ∧ within_cap contacts').
Proof.
  intros w.
  apply (firings_keep_counts_within_cap (env := Demo.env) (loads_dumps false) w
           [Demo.ann; Demo.bob; capped] []).
  - apply world_with_contacts.
  - apply world_with_tracking.
  - repeat (apply Forall_cons; split); [..|constructor]; intros n Hn; vm_compute in Hn;
      try discriminate. injection Hn as <-. unfold Scheduler.MAX_REMINDERS. lia.
Defined.

(** Three firings for one fresh pending contact use the whole budget; a
    fourth sends nothing more. *)
Example budget_is_reached :
  let w := Demo.world_with [Demo.ann] [] None in
  let j := {| job_id := "reminder_1_1"; run_date := 1060; job_args := (VInt 1, 1%Z) |} in
  reminder_budget [Demo.ann] = 3
  ∧ length (outbox (fire_all (env := Demo.env) [j; j; j] w)) = 3
  ∧ length (outbox (fire_all (env := Demo.env) [j; j; j; j] w)) = 3.
Proof. cbv zeta. repeat split; by_evaluation. Qed.

(** ** The response endpoint *)

Section responses.
Context {env : Collaborators}.

(** The two steps of a click, for a record that has its name and its
    address. *)
Lemma respond_first id status action w i c name email :
  first_with_id (stored w CONTACTS_FILE) (VInt id) i c →
  c !! "name" = Some name →
  c !! "email" = Some email →
  reloads (<[i := answered c status (now w)]> (stored w CONTACTS_FILE)) →
  (app.update_contact_status id status ≫= λ _, app.track_response id action) w
  = Ok tt (saved TRACKING_FILE
             (stored w TRACKING_FILE
              ++ [tracking_entry (VInt id) name email action (isoformat (now w))])
             (saved CONTACTS_FILE
                (<[i := answered c status (now w)]> (stored w CONTACTS_FILE)) w)).
Proof.
  intros Hfirst Hname Hemail Hreloads.
  set (c' := answered c status (now w)).
  set (contacts' := <[i := c']> (stored w CONTACTS_FILE)).
  set (w1 := saved CONTACTS_FILE contacts' w).
  assert (first_with_id (stored w1 CONTACTS_FILE) (VInt id) i c') as Hfirst'.
  { unfold w1. rewrite stored_saved by done. eapply first_with_id_insert; [exact Hfirst|].
    unfold c', answered. rewrite !lookup_insert_ne by done. apply Hfirst. }
  assert (c' !! "name" = Some name ∧ c' !! "email" = Some email) as [Hname' Hemail'].
  { unfold c', answered. by rewrite !lookup_insert_ne by done. }
  rewrite (bind_Ok _ _ _ _ _ (update_contact_status_first _ _ _ _ _ Hfirst)).
  fold c' contacts' w1.
  rewrite (track_response_first _ _ _ _ _ _ _ Hfirst' Hname' Hemail').
  pose proof tracking_is_not_contacts. unfold w1.
  by rewrite (stored_saved_ne CONTACTS_FILE TRACKING_FILE).
Qed.

Lemma after_click_files w id i c name email status :
  fs (after_click w id i c name email status) !! CONTACTS_FILE
  = Some (json_dumps true (<[i := answered c status (now w)]> (stored w CONTACTS_FILE)))
  ∧ fs (after_click w id i c name email status) !! TRACKING_FILE
    = Some (json_dumps true
              (stored w TRACKING_FILE
               ++ [tracking_entry (VInt id) name email status (isoformat (now w))]))
  ∧ writes (after_click w id i c name email status)
    = writes w ++ [CONTACTS_FILE; TRACKING_FILE]
  ∧ outbox (after_click w id i c name email status) = outbox w
  ∧ reminder_scheduler (after_click w id i c name email status) = reminder_scheduler w.
Proof.
  pose proof tracking_is_not_contacts.
  unfold after_click, saved. cbn.
  rewrite lookup_insert_ne by done. rewrite !lookup_insert_eq.
  by rewrite <- app_assoc.
Qed.

(** X18. [GET /not-interested/{id}] for a contact with that id that has
    its name and its address: the first record with the id gets the
    status not_interested and a new [updated_at], every other record
    stays as it was; the tracking log gets exactly one more event (five
    fields: the contact's id, name and address, the action
    "not_interested" and the time of the click); the contact store is
    written before the log; and the answer is the thank-you page, with
    status 200. *)
Theorem not_interested_marks_tracks_thanks w id i c name email :
  first_with_id (stored w CONTACTS_FILE) (VInt id) i c →
  c !! "name" = Some name →
  c !! "email" = Some email →
  reloads (<[i := answered c "not_interested" (now w)]> (stored w CONTACTS_FILE)) →
  ∃ w',
    app.not_interested id w = Ok (app.HTMLResponse app.html_content) w'
    ∧ app.status_code (app.HTMLResponse app.html_content) = 200%Z
    ∧ fs w' !! CONTACTS_FILE
      = Some (json_dumps true
                (<[i := answered c "not_interested" (now w)]> (stored w CONTACTS_FILE)))
    ∧ answered c "not_interested" (now w) !! "status" = Some (VStr "not_interested")
    ∧ fs w' !! TRACKING_FILE
      = Some (json_dumps true
                (stored w TRACKING_FILE
                 ++ [tracking_entry (VInt id) name email "not_interested"
                       (isoformat (now w))]))
    ∧ writes w' = writes w ++ [CONTACTS_FILE; TRACKING_FILE]
    ∧ (∃ event,
         fs w' !! TRACKING_FILE
         = Some (json_dumps true (stored w TRACKING_FILE ++ [event]))
         ∧ event_of event (VInt id) name email "not_interested" (isoformat (now w))).
Proof.
  intros Hfirst Hname Hemail Hreloads.
  exists (after_click w id i c name email "not_interested"). split.
  - unfold app.not_interested.
    pose proof (respond_first id "not_interested" "not_interested" w i c name email
                  Hfirst Hname Hemail Hreloads) as Hrun.
    unfold mbind, M_bind in *.
    destruct (app.update_contact_status id "not_interested" w) as [[] w1|e w1]; [|done].
    by rewrite Hrun.
  - destruct (after_click_files w id i c name email "not_interested")
      as (-> & -> & -> & _).
    split; [done|]. split; [done|].
    split; [unfold answered; rewrite lookup_insert_ne by done;
            by rewrite lookup_insert_eq|].
    split; [done|]. split; [done|].
    eexists. split; [done|]. apply tracking_entry_event.
Qed.

(** X19. [GET /interested/{id}] for a contact whose record lacks the
    name or the address is half done: the status change has been
    persisted when [track_response] raises [KeyError], so the request
    fails, the tracking log is not written, and the contact store keeps
    the new status. *)
Theorem click_without_name_is_half_done w id i c :
  first_with_id (stored w CONTACTS_FILE) (VInt id) i c →
  c !! "name" = None ∨ c !! "email" = None →
  reloads (<[i := answered c "interested" (now w)]> (stored w CONTACTS_FILE)) →
  ∃ key,
    app.interested id w
    = Raise (KeyError key)
        (saved CONTACTS_FILE
           (<[i := answered c "interested" (now w)]> (stored w CONTACTS_FILE)) w)
    ∧ (key = "name" ∨ key = "email")
    ∧ c !! key = None.
Proof.
  intros Hfirst Hmissing Hreloads.
  set (c' := answered c "interested" (now w)).
  set (contacts' := <[i := c']> (stored w CONTACTS_FILE)).
  set (w1 := saved CONTACTS_FILE contacts' w).
  assert (first_with_id (stored w1 CONTACTS_FILE) (VInt id) i c') as Hfirst'.
  { unfold w1. rewrite stored_saved by done. eapply first_with_id_insert; [exact Hfirst|].
    unfold c', answered. rewrite !lookup_insert_ne by done. apply Hfirst. }
  assert (c' !! "name" = c !! "name" ∧ c' !! "email" = c !! "email") as [Hname' Hemail'].
  { unfold c', answered. by rewrite !lookup_insert_ne by done. }
  assert (∃ key, app.track_response id "interested" w1 = Raise (KeyError key) w1
                 ∧ (key = "name" ∨ key = "email") ∧ c !! key = None)
    as (key & Htrack & Hkey & Hnone).
  { unfold app.track_response.
    rewrite (bind_Ok _ _ _ _ _ (app_load_json_stored _ _)).
    rewrite (bind_Ok _ _ _ _ _ (app_load_json_stored _ _)).
    rewrite (find_by_id_first _ _ _ _ 0 Hfirst'). mrun.
    rewrite (first_with_id_nonempty _ _ _ _ Hfirst').
    unfold getitem. rewrite Hname', Hemail'.
    destruct (c !! "name") as [name|] eqn:Hname.
    - destruct Hmissing as [?|Hemail]; [done|]. rewrite Hemail.
      exists "email". split; [done|]. by auto.
    - exists "name". split; [done|]. by auto. }
  exists key. split; [|done].
  unfold app.interested.
  rewrite (bind_Ok _ _ _ _ _ (update_contact_status_first _ _ _ _ _ Hfirst)).
  fold c' contacts' w1. by rewrite (bind_Raise _ _ _ _ _ Htrack).
Qed.

Lemma update_loop_no_id before c after id status w :
  Forall (other_id (VInt id)) before →
  c !! "id" = None →
  app.update_loop (before ++ c :: after) id status w = Raise (KeyError "id") w.
Proof.
  intros Hbefore Hnone. induction Hbefore as [|c0 rest (v & Hv & Hne) _ IH]; simpl.
  - unfold getitem. by rewrite Hnone.
  - unfold getitem. rewrite Hv. mrun. rewrite decide_False by done. by rewrite IH.
Qed.

(** X20. A record without an id that comes before every record with
    the requested id makes both click handlers raise [KeyError] in the
    search loop, before anything is written: no file, and in particular
    no status, changes. *)
Theorem click_stops_at_record_without_id w id before c after :
  stored w CONTACTS_FILE = before ++ c :: after →
  Forall (other_id (VInt id)) before →
  c !! "id" = None →
  app.interested id w = Raise (KeyError "id") w
  ∧ app.not_interested id w = Raise (KeyError "id") w.
Proof.
  intros Hstored Hbefore Hnone.
  assert (∀ status, app.update_contact_status id status w = Raise (KeyError "id") w)
    as Hupdate.
  { intros status. unfold app.update_contact_status.
    rewrite (bind_Ok _ _ _ _ _ (app_load_json_stored _ _)). rewrite Hstored.
    by rewrite (bind_Raise _ _ _ _ _ (update_loop_no_id _ _ _ _ _ _ Hbefore Hnone)). }
  split.
  - unfold app.interested. by rewrite (bind_Raise _ _ _ _ _ (Hupdate _)).
  - unfold app.not_interested. by rewrite (bind_Raise _ _ _ _ _ (Hupdate _)).
Qed.

(** X21. A click ends the reminders.  After either click for a contact
    (the first with the id, with name and address), a firing of the
    reminder routine for that id finds the contact resolved: it sends no
    message, writes no file and schedules no job.  The campaign engine
    reads here the file that the response endpoint wrote. *)
Theorem click_stops_reminders w id i c name email status interval :
  first_with_id (stored w CONTACTS_FILE) (VInt id) i c →
  c !! "name" = Some name →
  c !! "email" = Some email →
  status = "interested" ∨ status = "not_interested" →
  let contacts' := <[i := answered c status (now w)]> (stored w CONTACTS_FILE) in
  reloads contacts' →
  json_loads (json_dumps true contacts') = Some contacts' →
  let click := if decide (status = "interested") then app.interested id
               else app.not_interested id in
  ∃ response w1 w2,
    click w = Ok response w1
    ∧ Scheduler.send_reminder_email (VInt id) interval w1 = Ok tt w2
    ∧ fs w2 = fs w1 ∧ writes w2 = writes w1
    ∧ outbox w2 = outbox w ∧ reminder_scheduler w2 = reminder_scheduler w.
Proof.
  intros Hfirst Hname Hemail Hstatus contacts' Hreloads Hascii click.
  set (w1 := after_click w id i c name email status).
  assert (∃ response, click w = Ok response w1) as [response Hclick].
  { pose proof (respond_first id status status w i c name email
                  Hfirst Hname Hemail Hreloads) as Hrun.
    unfold mbind, M_bind in Hrun. subst click.
    destruct Hstatus as [-> | ->]; simpl;
      [unfold app.interested|unfold app.not_interested];
      unfold mbind, M_bind;
      match goal with |- context [app.update_contact_status id ?s w] =>
        destruct (app.update_contact_status id s w) as [[] w0|e w0]; [|done] end;
      rewrite Hrun; by eexists. }
  destruct (after_click_files w id i c name email status)
    as (Hcontacts & _ & _ & Hout & Hsched).
  assert (store_is w1 CONTACTS_FILE contacts') as Hstore.
  { unfold store_is. fold w1 in Hcontacts. by rewrite Hcontacts. }
  assert (first_with_id contacts' (VInt id) i (answered c status (now w))) as Hfirst'.
  { eapply first_with_id_insert; [exact Hfirst|].
    unfold answered. rewrite !lookup_insert_ne by done. apply Hfirst. }
  assert (Scheduler.is_pending (answered c status (now w)) = false) as Hresolved.
  { unfold Scheduler.is_pending, dict_get, answered.
    rewrite lookup_insert_ne by done. rewrite lookup_insert_eq. simpl.
    apply bool_decide_eq_false. by destruct Hstatus as [-> | ->]. }
  exists response, w1, (set_stdout (λ l, l ++ [not_pending_line (VInt id)]) w1).
  split; [done|]. split; [by eapply send_reminder_email_resolved|].
  fold w1 in Hout, Hsched. by cbn.
Qed.

Lemma count_status_missing contacts status :
  Exists (λ c, c !! "status" = None) contacts →
  app.count_status contacts status = inl (KeyError "status").
Proof.
  induction 1 as [c rest Hnone|c rest _ IH]; simpl.
  - by rewrite Hnone.
  - destruct (c !! "status"); [|done]. by rewrite IH.
Qed.

(** X22. [GET /stats] needs a status in every record: one record
    without it makes the request fail with [KeyError], without any
    partial answer and without changing anything. *)
Theorem stats_needs_every_status w :
  Exists (λ c, c !! "status" = None) (stored w CONTACTS_FILE) →
  app.get_stats w = Raise (KeyError "status") w.
Proof.
  intros Hmissing. unfold app.get_stats.
  rewrite (bind_Ok _ _ _ _ _ (app_load_json_stored _ _)).
  rewrite (bind_Ok _ _ _ _ _ (app_load_json_stored _ _)). cbv zeta.
  rewrite !(count_status_missing _ _ Hmissing). by mrun.
Qed.

Lemma with_status_sum contacts :
  (with_status contacts "interested" + with_status contacts "not_interested"
   + with_status contacts "pending" ≤ length contacts)%nat
  ∧ (Forall (λ c, c !! "status" = Some (VStr "interested")
                  ∨ c !! "status" = Some (VStr "not_interested")
                  ∨ c !! "status" = Some (VStr "pending")) contacts →
     with_status contacts "interested" + with_status contacts "not_interested"
     + with_status contacts "pending" = length contacts).
Proof.
  unfold with_status. induction contacts as [|c rest [IH1 IH2]]; [done|].
  rewrite !filter_cons. split.
  - repeat case_decide; simpl; try lia; congruence.
  - intros [Hc Hrest]%Forall_cons. specialize (IH2 Hrest).
    repeat case_decide; simpl; try lia; try congruence.
    destruct Hc as [?|[?|?]]; congruence.
Qed.

(** X23. The counts of [GET /stats].  When every record has a status,
    the answer counts the records under each of the three statuses
    exactly; the three counts add up to at most the total, and to the
    total exactly when no record has another status; and the request
    changes nothing. *)
Theorem stats_counts_partition w :
  Forall (λ c, is_Some (c !! "status")) (stored w CONTACTS_FILE) →
  let contacts := stored w CONTACTS_FILE in
  ∃ s,
    app.get_stats w = Ok (app.StatsResponse s) w
    ∧ app.total_contacts s = length contacts
    ∧ app.interested_count s = with_status contacts "interested"
    ∧ app.not_interested_count s = with_status contacts "not_interested"
    ∧ app.pending_count s = with_status contacts "pending"
    ∧ (app.interested_count s + app.not_interested_count s + app.pending_count s
       ≤ app.total_contacts s)%nat
    ∧ (Forall (λ c, c !! "status" = Some (VStr "interested")
                    ∨ c !! "status" = Some (VStr "not_interested")
                    ∨ c !! "status" = Some (VStr "pending")) contacts →
       app.interested_count s + app.not_interested_count s + app.pending_count s
       = app.total_contacts s).
Proof.
  intros Hall contacts. unfold app.get_stats.
  rewrite (bind_Ok _ _ _ _ _ (app_load_json_stored _ _)).
  rewrite (bind_Ok _ _ _ _ _ (app_load_json_stored _ _)). cbv zeta.
  rewrite !(count_status_spec _ _ Hall). fold contacts. mrun.
  unfold app.truediv.
  destruct (with_status_sum contacts) as [Hle Heq].
  destruct (length contacts) eqn:Hlen; mrun; eexists; (split; [reflexivity|]); cbn;
    rewrite ?Hlen; repeat split; try done.
Qed.

End responses.

Lemma world_with_stored contacts tracking timer :
  stored (env := Demo.env) (Demo.world_with contacts tracking timer) CONTACTS_FILE = contacts.
Proof.
  unfold stored.
  assert (fs (Demo.world_with contacts tracking timer) !! CONTACTS_FILE
          = Some (Demo.dumps false contacts)) as -> by done.
  change (@json_loads Demo.env) with Demo.loads.
  rewrite (strip_dumps false). rewrite bool_decide_eq_false_2.
  - by rewrite loads_dumps.
  - intros Hempty. pose proof (loads_dumps false contacts) as Hloads.
    rewrite Hempty in Hloads. by vm_compute in Hloads.
Qed.

Lemma not_interested_marks_tracks_thanks_witness :
  let w := Demo.world_with [Demo.ann; Demo.dee] [] None in
  ∃ w',
    app.not_interested (env := Demo.env) 42 w = Ok (app.HTMLResponse app.html_content) w'
    ∧ stored (env := Demo.env) w' CONTACTS_FILE
      = [Demo.ann;
         <["updated_at" := VStr "1000"]> (<["status" := VStr "not_interested"]> Demo.dee)]
    ∧ stored (env := Demo.env) w' TRACKING_FILE
      = [list_to_map [("contact_id", VInt 42); ("contact_name", VStr "Dee");
                      ("contact_email", VStr "dee@example.com");
                      ("action", VStr "not_interested"); ("timestamp", VStr "1000")]].
Proof.
  intros w.
  destruct (not_interested_marks_tracks_thanks (env := Demo.env) w 42 1 Demo.dee
              (VStr "Dee") (VStr "dee@example.com"))
    as (w' & Hrun & _ & Hcontacts & _ & Htracking & _).
  - split; [by_evaluation|]. split; [by_evaluation|].
    apply Forall_cons. split; [|constructor].
    exists (VInt 1). split; [by_evaluation|discriminate].
  - by_evaluation.
  - by_evaluation.
  - split; by_evaluation.
  - exists w'. split; [exact Hrun|]. unfold stored. rewrite Hcontacts, Htracking.
    split; by_evaluation.
Defined.

Lemma click_without_name_is_half_done_witness :
  let w := Demo.world_with [nameless] [] None in
  ∃ key,
    app.interested (env := Demo.env) 9 w
    = Raise (KeyError key)
        (saved (env := Demo.env) CONTACTS_FILE
           (<[0 := answered (env := Demo.env) nameless "interested" (now w)]> [nameless]) w)
    ∧ (key = "name" ∨ key = "email")
    ∧ nameless !! key = None.
Proof.
  intros w.
  assert (stored (env := Demo.env) w CONTACTS_FILE = [nameless]) as Hstored
    by apply world_with_stored.
  destruct (click_without_name_is_half_done (env := Demo.env) w 9 0 nameless)
    as (key & Hrun & Hkey).
  - rewrite Hstored. split; [reflexivity|]. split; [by_evaluation|constructor].
  - left. by_evaluation.
  - rewrite Hstored. split; by_evaluation.
  - rewrite Hstored in Hrun. exists key. exact (conj Hrun Hkey).
Defined.

Lemma click_stops_at_record_without_id_witness :
  let w := Demo.world_with [Demo.ann; without_id; Demo.dee] [] None in
  app.interested (env := Demo.env) 42 w = Raise (KeyError "id") w
  ∧ app.not_interested (env := Demo.env) 42 w = Raise (KeyError "id") w.
Proof.
  intros w.
  apply (click_stops_at_record_without_id (env := Demo.env) w 42 [Demo.ann] without_id
           [Demo.dee]).
  - apply world_with_stored.
  - apply Forall_cons. split; [|constructor].
    exists (VInt 1). split; [by_evaluation|discriminate].
  - by_evaluation.
Defined.

Lemma click_stops_reminders_witness :
  let w := Demo.world_with [Demo.ann; Demo.dee] [] (Some []) in
  ∃ response w1 w2,
    app.not_interested (env := Demo.env) 42 w = Ok response w1
    ∧ Scheduler.send_reminder_email (env := Demo.env) (VInt 42) None w1 = Ok tt w2
    ∧ fs w2 = fs w1 ∧ writes w2 = writes w1
    ∧ outbox w2 = [] ∧ reminder_scheduler w2 = Some [].
Proof.
  intros w.
  assert (stored (env := Demo.env) w CONTACTS_FILE = [Demo.ann; Demo.dee]) as Hstored
    by apply world_with_stored.
  apply (click_stops_reminders (env := Demo.env) w 42 1 Demo.dee (VStr "Dee")
           (VStr "dee@example.com") "not_interested" None).
  - rewrite Hstored. split; [reflexivity|]. split; [by_evaluation|].
    apply Forall_cons. split; [|constructor].
    exists (VInt 1). split; [by_evaluation|discriminate].
  - by_evaluation.
  - by_evaluation.
  - by right.
  - rewrite Hstored. split; by_evaluation.
  - rewrite Hstored. by_evaluation.
Defined.

Lemma stats_needs_every_status_witness :
  let w := Demo.world_with [Demo.ann; without_id] [] None in
  app.get_stats (env := Demo.env) w = Raise (KeyError "status") w.
Proof.
  intros w. apply (stats_needs_every_status (env := Demo.env) w).
  unfold w. rewrite world_with_stored.
  apply Exists_cons_tl, Exists_cons_hd. by_evaluation.
Defined.

Lemma stats_counts_partition_witness :
  let w := Demo.world_with [Demo.ann; Demo.bob; Demo.cy] [] None in
  ∃ s,
    app.get_stats (env := Demo.env) w = Ok (app.StatsResponse s) w
    ∧ app.total_contacts s = 3
    ∧ app.interested_count s = 1
    ∧ app.not_interested_count s = 0
    ∧ app.pending_count s = 2.
Proof.
  intros w.
  assert (stored (env := Demo.env) w CONTACTS_FILE = [Demo.ann; Demo.bob; Demo.cy])
    as Hstored by apply world_with_stored.
  destruct (stats_counts_partition (env := Demo.env) w)
    as (s & Hrun & Htotal & Hyes & Hno & Hpending & _).
  - rewrite Hstored.
    repeat (apply Forall_cons; split); [by_evaluation..|constructor].
  - rewrite Hstored in Htotal, Hyes, Hno, Hpending.
    exists s. split; [exact Hrun|]. rewrite Htotal, Hyes, Hno, Hpending.
    repeat split; by_evaluation.
Defined.

(** ** A campaign run that finds nothing to do, or that is cut short *)

Section campaign_edges.
Context {env : Collaborators}.

(** X24. A campaign run over a contact store that is missing, or that
    parses to a collection without a pending contact (the empty array
    included), prints one line and returns [None]: it sends no message,
    writes no file and schedules no job. *)
Theorem campaign_without_pending_is_idle interval w contacts :
  store_is w CONTACTS_FILE contacts →
  pending_of contacts = [] →
  ∃ w',
    Scheduler.send_emails_to_all interval w = Ok None w'
    ∧ stdout w' = stdout w ++ ["No pending contacts to send emails to."]
    ∧ fs w' = fs w ∧ writes w' = writes w ∧ outbox w' = outbox w
    ∧ reminder_scheduler w' = reminder_scheduler w.
Proof.
  intros Hstore Hnone. eexists. split; [by eapply send_emails_to_all_idle|]. done.
Qed.




End campaign_edges.

Lemma campaign_without_pending_is_idle_witness :
  let w := Demo.world_with [Demo.bob] [] (Some []) in
  ∃ w',
    Scheduler.send_emails_to_all (env := Demo.env) None w = Ok None w'
    ∧ stdout w' = stdout w ++ ["No pending contacts to send emails to."]
    ∧ fs w' = fs w ∧ writes w' = writes w ∧ outbox w' = outbox w
    ∧ reminder_scheduler w' = reminder_scheduler w.
Proof.
  intros w.
  apply (campaign_without_pending_is_idle (env := Demo.env) None w [Demo.bob]).
  - apply world_with_contacts.
  - by_evaluation.
Defined.


(** On that collection Ann is sent to and logged, Dee is never reached,
    and the contact store is left as it was. *)
Example campaign_cut_short :
  let w := Demo.world_with [Demo.ann; nameless; Demo.dee] [] None in
  let w' := world_of (Scheduler.send_emails_to_all (env := Demo.env) None w) in
  length (outbox w') = 1 ∧ writes w' = [TRACKING_FILE]
  ∧ fs w' !! CONTACTS_FILE = fs w !! CONTACTS_FILE.
Proof. cbv zeta. repeat split; by_evaluation. Qed.

(** ** The initial send, whichever way it ends *)

Section initial_send_frame.
Context {env : Collaborators}.

(** X27. Whether it returns [True] or [False] or raises, [send_email]
    never writes the contact store and never touches the timer; it hands
    at most one message to the transport, the initial message addressed
    to the record's own address; and the only file it can write is the
    tracking log. *)
Theorem send_email_touches_only_the_log contact w :
  let w' := world_of (Scheduler.send_email contact w) in
  fs w' !! CONTACTS_FILE = fs w !! CONTACTS_FILE
  ∧ reminder_scheduler w' = reminder_scheduler w
  ∧ (∀ filename, filename ≠ TRACKING_FILE → fs w' !! filename = fs w !! filename)
  ∧ (outbox w' = outbox w
     ∨ ∃ message, outbox w' = outbox w ++ [message]
                  ∧ contact !! "email" = Some (msg_to message)
                  ∧ msg_subject message = Scheduler.initial_subject
                  ∧ smtp_submit (now w) message = None).
Proof.
  intros w'.
  assert (∀ e w0 r,
            r = (name ← lift (getitem contact "name");
                 print ("❌ Failed to send email to " +:+ str name +:+ ": " +:+ exn_str e);;
                 mret false) w0 →
            fs (world_of r) = fs w0 ∧ outbox (world_of r) = outbox w0
            ∧ reminder_scheduler (world_of r) = reminder_scheduler w0) as Hhandler.
  { intros e w0 r ->. unfold getitem. mrun. by destruct (contact !! "name"). }
  subst w'. remember (Scheduler.send_email contact w) as r eqn:Hr.
  unfold Scheduler.send_email, try_except in Hr.
  pose proof (compose_inv contact Scheduler.initial_subject None w) as Hinv.
  unfold mbind at 1, M_bind at 1 in Hr.
  destruct (Scheduler.compose contact Scheduler.initial_subject None w)
    as [[[[id name] email] message] w1|e w1].
  2:{ subst w1. unfold Exception in Hr. cbv beta iota in Hr.
      destruct (Hhandler e w r Hr) as (-> & -> & ->). by auto. }
  destruct Hinv as (-> & _ & _ & Hemail & Hto & Hsubject).
  unfold mbind at 1, M_bind at 1 in Hr. unfold Scheduler.smtp_send at 1 in Hr.
  destruct (smtp_submit (now w) message) as [e|] eqn:Hsmtp.
  { unfold Exception in Hr. cbv beta iota in Hr.
    destruct (Hhandler e w r Hr) as (-> & -> & ->). by auto. }
  assert (∃ message', outbox w ++ [message] = outbox w ++ [message']
                      ∧ contact !! "email" = Some (msg_to message')
                      ∧ msg_subject message' = Scheduler.initial_subject
                      ∧ smtp_submit (now w) message' = None) as Hsent.
  { exists message. by rewrite Hto. }
  unfold mbind at 1, M_bind at 1 in Hr.
  pose proof (Scheduler_load_json_inv TRACKING_FILE (set_outbox (λ l, l ++ [message]) w))
    as Hload.
  destruct (Scheduler.load_json TRACKING_FILE _) as [tracking w2|e w2].
  - destruct Hload as [-> _]. revert Hr. unfold Scheduler.save_json. mrun. intros ->. cbn.
    pose proof tracking_is_not_contacts.
    rewrite lookup_insert_ne by done. repeat split; [|by right].
    intros filename Hne. by rewrite lookup_insert_ne.
  - subst w2. unfold Exception in Hr. cbv beta iota in Hr.
    destruct (Hhandler e (set_outbox (λ l, l ++ [message]) w) r Hr) as (-> & -> & ->).
    repeat split. by right.
Qed.

End initial_send_frame.
